(** * heye: a vision-language-model command line tool

    A shallow embedding of [src/heye.py] (class [Eye], [parse_args] and
    [main]) and the properties of its configuration store, query processor
    and command line.

    Python strings are modelled as [string] (sequences of 8-bit characters,
    the ASCII range behaving as in Python), dictionaries as [gmap string _],
    exceptions as values of [exn], and the methods of [Eye] as computations
    in a state-and-exception monad [M] over the part of the outside world
    the program touches: the configuration file, standard output and the
    remote API. *)

From stdpp Require Import base option list strings gmap fin_maps.
From Stdlib Require Import Ascii String ZArith.

#[local] Set Warnings "-register-all".
#[local] Open Scope string_scope.

(** ** Python values *)

(** The objects [json.load] can return and the program stores in [config].
    JSON numbers with a fraction or an exponent are left out. *)
Inductive value : Type :=
| VNone
| VBool (b : bool)
| VInt (n : Z)
| VStr (s : string)
| VList (xs : list value)
| VDict (d : gmap string value).

(** [type(v).__name__] *)
Definition type_name (v : value) : string :=
  match v with
  | VNone => "NoneType"
  | VBool _ => "bool"
  | VInt _ => "int"
  | VStr _ => "str"
  | VList _ => "list"
  | VDict _ => "dict"
  end.

(** A command line argument: [None] or a [str]. *)
Definition of_arg (a : option string) : value :=
  match a with
  | Some s => VStr s
  | None => VNone
  end.

(** Truth value of an optional string, as tested by [if x:] and [x or y]. *)
Definition truthy (a : option string) : bool :=
  match a with
  | Some (String _ _) => true
  | Some EmptyString | None => false
  end.

(** ** Exceptions

    The classes the program names, and those its own operations raise.  An
    exception of another class stands under the nearest class listed that
    it derives from: [PermissionError] under [IOError] (which is [OSError]),
    [UnicodeEncodeError] under [ValueError], and what derives from none of
    them, such as [RecursionError] or the [OpenAIError] of the client
    library, under [OtherException]. *)

Inductive exn : Type :=
| FileNotFoundError (msg : string)
| ValueError (msg : string)
| JSONDecodeError (msg : string)
| UnicodeDecodeError (msg : string)
| IOError (msg : string)
| TypeError (msg : string)
| AttributeError (msg : string)
| IndexError (msg : string)
| OtherException (msg : string).

Definition str_exn (e : exn) : string :=
  match e with
  | FileNotFoundError m | ValueError m | JSONDecodeError m
  | UnicodeDecodeError m | IOError m | TypeError m | AttributeError m
  | IndexError m | OtherException m => m
  end.

(** [except IOError]: [IOError] is [OSError], of which [FileNotFoundError]
    is a subclass. *)
Definition is_IOError (e : exn) : bool :=
  match e with
  | IOError _ | FileNotFoundError _ => true
  | _ => false
  end.

(** [except (json.JSONDecodeError, IOError, UnicodeDecodeError)] *)
Definition is_load_failure (e : exn) : bool :=
  match e with
  | JSONDecodeError _ | UnicodeDecodeError _ => true
  | _ => is_IOError e
  end.

(** ** String methods *)

Definition lower_ascii (c : ascii) : ascii :=
  let n := nat_of_ascii c in
  if (65 <=? n)%nat && (n <=? 90)%nat then ascii_of_nat (n + 32) else c.

(** [s.lower()] *)
Fixpoint lower (s : string) : string :=
  match s with
  | EmptyString => EmptyString
  | String c s' => String (lower_ascii c) (lower s')
  end.

(** [s.endswith(suffix)] *)
Fixpoint endswith (s suffix : string) : bool :=
  if String.eqb s suffix then true
  else match s with
       | EmptyString => false
       | String _ s' => endswith s' suffix
       end.

(** [s.endswith(suffixes)] with a tuple of suffixes *)
Definition endswith_any (s : string) (suffixes : list string) : bool :=
  existsb (endswith s) suffixes.

(** [s.split(sep)] for a one-character separator *)
Fixpoint split (sep : ascii) (s : string) : list string :=
  match s with
  | EmptyString => [EmptyString]
  | String c s' =>
      if Ascii.eqb c sep then EmptyString :: split sep s'
      else match split sep s' with
           | w :: ws => String c w :: ws
           | [] => [String c EmptyString]
           end
  end.

(** [l[-1]] *)
Definition index_last {A} (l : list A) : exn + A :=
  match last l with
  | Some x => inr x
  | None => inl (IndexError "list index out of range")
  end.

(** [d.get(key, default)] on a dictionary *)
Definition dict_get {A} (d : gmap string A) (key : string) (default : A) : A :=
  match d !! key with
  | Some v => v
  | None => default
  end.

(** ** The outside world *)

(** Content parts and messages of a chat request. *)
Inductive part : Type :=
| image_url (url : string)
| text (t : value).

Record message : Type := Message { role : string; parts : list part }.

(** Chunks of a streamed chat completion.  The stream is an iterator over
    a connection: asked for its next item it yields a chunk, or raises, and
    then yields nothing more.  An item of a stream is therefore a chunk or
    the exception raised in its place. *)
Record ChoiceDelta : Type := Delta { content : option string }.
Record Choice : Type := MkChoice { delta : ChoiceDelta }.
Inductive Chunk : Type :=
| MkChunk (choices : list Choice)
| Interrupted (e : exn).

(** [chunk.choices]; an item that is an exception has no choice. *)
Definition choices (chunk : Chunk) : list Choice :=
  match chunk with
  | MkChunk choices => choices
  | Interrupted _ => []
  end.

(** The client built by [OpenAI(api_key=..., base_url=...)], recorded by
    the arguments it was built with. *)
Record OpenAI : Type := Client { api_key : value; client_base_url : value }.

(** One call of [client.chat.completions.create]. *)
Record api_call : Type :=
  ApiCall { call_client : OpenAI; call_model : value;
            call_messages : list message; call_stream : bool }.

(** The configuration file [~/.heye]. *)
Inductive file : Type :=
| Missing                  (* the path does not exist *)
| Inaccessible (e : exn)   (* asking whether it exists raises [e] *)
| Unreadable (e : exn)     (* it exists; opening or decoding it raises [e] *)
| Text (s : string).       (* it holds the text [s] *)

(** What the program can change. *)
Record world : Type :=
  World { config_file : file; stdout : string; api_calls : list api_call }.

(** What the program only reads or calls: the [json], [os], [base64]
    and [openai] libraries and the file system outside the configuration
    file. *)
Record environment : Type := Env {
  (* [json.dump(config, f, indent=2, ensure_ascii=False)]: the text written *)
  json_dump : value → string;
  (* [json.load(f)] on the text of the file *)
  json_load : string → exn + value;
  (* [str(Path.home() / ".heye")] *)
  config_path : string;
  (* what writing the configuration file raises, if anything *)
  config_write_failure : option exn;
  (* when the write raises after [open] has truncated the file: the text
     left in it; [None] when [open] itself raises *)
  config_write_leftover : option string;
  (* [os.getenv] *)
  getenv : string → option string;
  (* [os.path.exists] *)
  path_exists : string → bool;
  (* [open(path, "rb").read()] *)
  read_bytes : string → exn + list ascii;
  (* [base64.b64encode(data).decode("utf-8")] *)
  b64encode : list ascii → string;
  (* what [OpenAI(api_key=..., base_url=...)] raises for arguments it cannot
     use, such as a [base_url] that is not a string, if anything *)
  client_failure : value → value → option exn;
  (* what the remote API answers to a call: the exception raised by the
     call, or the items of the stream it returns *)
  completions : api_call → exn + list Chunk
}.

(** ** The monad of methods: state and exceptions *)

Definition M (A : Type) : Type := world → (exn + A) * world.

Definition ret {A} (x : A) : M A := λ w, (inr x, w).

Definition raise {A} (e : exn) : M A := λ w, (inl e, w).

Definition bind {A B} (m : M A) (k : A → M B) : M B :=
  λ w, match m w with
       | (inr x, w') => k x w'
       | (inl e, w') => (inl e, w')
       end.

Notation "x <- m ;; k" := (bind m (λ x, k))
  (at level 100, m at next level, right associativity).
Notation "m ;;; k" := (bind m (λ _, k))
  (at level 100, right associativity).

(** [try: body except <handles>: handler] *)
Definition try_except {A} (body : M A) (handles : exn → bool)
    (handler : exn → M A) : M A :=
  λ w, match body w with
       | (inl e, w') => if handles e then handler e w' else (inl e, w')
       | r => r
       end.

(** Lifting a library call that returns or raises. *)
Definition lift {A} (r : exn + A) : M A := λ w, (r, w).

(** [print(s, end=e)] *)
Definition print (s e : string) : M unit :=
  λ w, (inr tt, World (config_file w) (stdout w +:+ s +:+ e) (api_calls w)).

Definition newline : string := String (ascii_of_nat 10) EmptyString.

Section Eye.

Context (env : environment).

(** ** Image processing methods *)

Definition supported_extensions : list string :=
  [".png"; ".jpg"; ".jpeg"; ".bmp"; ".webp"; ".tiff"; ".tif"].

Definition validate_image (image_path : string) : M unit :=
  if negb (path_exists env image_path) then
    raise (FileNotFoundError (image_path +:+ " does not exist."))
  else if negb (endswith_any (lower image_path) supported_extensions) then
    raise (ValueError (image_path +:+
      " is not a valid image file. Supported formats: PNG, JPG, JPEG, BMP, WEBP, TIFF, TIF"))
  else ret tt.

Definition encode_image (image_path : string) : M string :=
  data <- lift (read_bytes env image_path) ;;
  ret (b64encode env data).

Definition content_types : gmap string string :=
  list_to_map
    [("png", "image/png"); ("jpg", "image/jpeg"); ("jpeg", "image/jpeg");
     ("bmp", "image/bmp"); ("webp", "image/webp"); ("tiff", "image/tiff");
     ("tif", "image/tiff")].

Definition get_image_content_type (image_path : string) : M string :=
  extension <- lift (index_last (split "." (lower image_path))) ;;
  ret (dict_get content_types extension "image/png").

(** [self.client.chat.completions.create(model=..., messages=...,
    stream=True)]: the call is recorded, then returns its stream or raises. *)
Definition create (call : api_call) : M (list Chunk) :=
  λ w, (completions env call,
        World (config_file w) (stdout w) (api_calls w ++ [call])).

(** ** Configuration methods *)

(** [self.config_file.exists()]: [Path.exists] answers [False] for a path
    that is not there and raises the [OSError] of [stat] otherwise. *)
Definition config_file_exists : M bool :=
  λ w, (match config_file w with
        | Missing => inr false
        | Inaccessible e => inl e
        | Unreadable _ | Text _ => inr true
        end, w).

(** [with codecs.open(self.config_file, 'r', encoding='utf-8') as f:
       return json.load(f)] *)
Definition read_config : M value :=
  λ w, match config_file w with
       | Missing =>
           (inl (FileNotFoundError ("No such file or directory: " +:+ config_path env)), w)
       | Inaccessible e | Unreadable e => (inl e, w)
       | Text s => (json_load env s, w)
       end.

Definition load_config : M value :=
  present <- config_file_exists ;;
  if (present : bool) then
    try_except read_config is_load_failure (λ _, ret (VDict ∅))
  else ret (VDict ∅).

(** [with codecs.open(self.config_file, 'w', encoding='utf-8') as f:
       json.dump(config, f, indent=2, ensure_ascii=False)]
    When [open] raises, the file is as it was; when [json.dump] or the
    closing of the file raises, [open] has truncated the file and it holds
    what was written until then. *)
Definition write_config (config : value) : M unit :=
  λ w, match config_write_failure env with
       | Some e =>
           (inl e,
            World (match config_write_leftover env with
                   | Some s => Text s
                   | None => config_file w
                   end) (stdout w) (api_calls w))
       | None => (inr tt, World (Text (json_dump env config)) (stdout w) (api_calls w))
       end.

Definition save_config (config : value) : M unit :=
  try_except (write_config config) is_IOError
    (λ e, print ("Warning: Could not save config to " +:+ config_path env
                   +:+ ": " +:+ str_exn e) newline).

(** [config[key] = v] *)
Definition setitem (config : value) (key : string) (v : value) : M value :=
  match config with
  | VDict d => ret (VDict (<[key := v]> d))
  | VList _ => raise (TypeError "list indices must be integers or slices, not str")
  | _ => raise (TypeError ("'" +:+ type_name config
                             +:+ "' object does not support item assignment"))
  end.

(** [config.get(key, default)] *)
Definition get (config : value) (key : string) (default : value) : M value :=
  match config with
  | VDict d => ret (dict_get d key default)
  | _ => raise (AttributeError ("'" +:+ type_name config
                                  +:+ "' object has no attribute 'get'"))
  end.

(** [if arg is not None: config[key] = arg] *)
Definition update (config : value) (key : string) (arg : option string) : M value :=
  match arg with
  | Some s => setitem config key (VStr s)
  | None => ret config
  end.

(** Lines 61-69 of [_setup_configuration]: the overrides are written into
    the loaded dictionary. *)
Definition merge (config : value)
    (query_text model_name base_url api_token : option string) : M value :=
  config <- update config "base_url" base_url ;;
  config <- update config "api_token" api_token ;;
  config <- update config "model_name" model_name ;;
  update config "query_text" query_text.

(** The attributes set by [_setup_configuration]. *)
Record settings : Type :=
  Settings { self_base_url : value; self_api_token : value;
             self_model_name : value; self_query_text : value }.

Definition default_base_url : string :=
  "https://dashscope.aliyuncs.com/compatible-mode/v1".
Definition default_model_name : string := "qwen3-vl-plus".
Definition default_query_text : string := "What scene is depicted in the image?".

(** [arg or config.get(key, default)] *)
Definition or_get (arg : option string) (config : value) (key : string)
    (default : value) : M value :=
  if truthy arg then ret (of_arg arg) else get config key default.

Definition _setup_configuration
    (query_text model_name base_url api_token : option string) : M settings :=
  config <- load_config ;;
  config <- merge config query_text model_name base_url api_token ;;
  (if bool_decide (base_url ≠ None) || bool_decide (api_token ≠ None)
      || bool_decide (model_name ≠ None) || bool_decide (query_text ≠ None)
   then save_config config else ret tt) ;;;
  url <- get config "base_url" (VStr default_base_url) ;;
  token <- get config "api_token" (of_arg (getenv env "DASHSCOPE_API_KEY")) ;;
  model <- or_get model_name config "model_name" (VStr default_model_name) ;;
  query <- or_get query_text config "query_text" (VStr default_query_text) ;;
  ret (Settings url token model query).

(** ** The class *)

Record Eye : Type :=
  MkEye { self_settings : settings; self_image_path : string;
          self_client : OpenAI }.

(** [OpenAI(api_key=..., base_url=...)]: without a key the library falls
    back on the environment variable OPENAI_API_KEY and raises
    [OpenAIError], a plain [Exception], when that is not set either. *)
Definition OpenAI_new (api_key base_url : value) : M OpenAI :=
  match api_key, getenv env "OPENAI_API_KEY" with
  | VNone, None =>
      raise (OtherException "The api_key client option must be set either by passing api_key to the client or by setting the OPENAI_API_KEY environment variable")
  | _, _ =>
      match client_failure env api_key base_url with
      | Some e => raise e
      | None => ret (Client api_key base_url)
      end
  end.

Definition __init__ (image_path : string)
    (query_text model_name base_url api_token : option string) : M Eye :=
  s <- _setup_configuration query_text model_name base_url api_token ;;
  client <- OpenAI_new (self_api_token s) (self_base_url s) ;;
  ret (MkEye s image_path client).

Definition send_messages (self : Eye) (messages : list message) : M (list Chunk) :=
  create (ApiCall (self_client self) (self_model_name (self_settings self))
            messages true).

(** The [for chunk in stream] loop; returns [assistant_content].  The loop
    ends when the stream does, and with the exception of the stream when
    the stream raises instead of yielding its next chunk. *)
Fixpoint consume (stream : list Chunk) (assistant_content : string) : M string :=
  match stream with
  | [] => ret assistant_content
  | Interrupted e :: _ => raise e
  | MkChunk choices :: stream' =>
      choice <- match choices with
                | c :: _ => ret c
                | [] => raise (IndexError "list index out of range")
                end ;;
      let delta := delta choice in
      if truthy (content delta) then
        let s := default EmptyString (content delta) in
        print s EmptyString ;;;
        consume stream' (assistant_content +:+ s)
      else consume stream' assistant_content
  end.

(** The request built by [process_query]. *)
Definition build_messages (content_type base64_image : string)
    (query_text : value) : list message :=
  [ Message "user"
      [ image_url ("data:" +:+ content_type +:+ ";base64," +:+ base64_image);
        text query_text ] ].

(** [process_query] returns nothing in the source; here it returns the final
    [assistant_content], to make the local variable observable. *)
Definition process_query (self : Eye) : M string :=
  validate_image (self_image_path self) ;;;
  base64_image <- encode_image (self_image_path self) ;;
  content_type <- get_image_content_type (self_image_path self) ;;
  let messages :=
    build_messages content_type base64_image
      (self_query_text (self_settings self)) in
  stream <- send_messages self messages ;;
  consume stream EmptyString.

End Eye.

(** ** Model validation

    [_validate_model] is defined by the class but never called: its call in
    [__init__] is commented out. *)

Definition SUPPORTED_MODELS : list string :=
  ["qwen3-vl-plus"; "qwen3-vl-flash"; "qwen-vl-ocr-latest"].

(** [v in names] for a list of strings: only a [str] equals a [str]. *)
Definition value_in (v : value) (names : list string) : bool :=
  match v with
  | VStr s => bool_decide (s ∈ names)
  | _ => false
  end.

Section validate_model.

(** How an f-string renders a value ([str]); the identity on strings. *)
Context (format : value → string).

Definition _validate_model (self : Eye) : M unit :=
  if negb (value_in (self_model_name (self_settings self)) SUPPORTED_MODELS) then
    raise (ValueError ("Unsupported model: "
             +:+ format (self_model_name (self_settings self))
             +:+ ". Supported models are: "
             +:+ String.concat ", " SUPPORTED_MODELS))
  else ret tt.

End validate_model.

(** ** The command line *)

(** The namespace built by [argparse]: the positional words of the query,
    the required path and the three optional flags. *)
Record Namespace : Type :=
  MkNamespace { ns_query : list string; ns_path : string;
                ns_model : option string; ns_base_url : option string;
                ns_api_token : option string }.

(** The namespace returned by [parse_args], with the query joined. *)
Record Args : Type :=
  MkArgs { args_query : option string; args_path : string;
           args_model : option string; args_base_url : option string;
           args_api_token : option string }.

(** What [parser.parse_args()] does with the command line: it returns a
    namespace; or, for [-h], prints the help on standard output and exits
    with status 0; or rejects the command line, writes its usage message on
    standard error, which the world does not record, and exits with status
    2: so it does without [-p], and for a model that is not one of the
    three choices of [-m].  Both exits are [SystemExit], which is not an
    [Exception]. *)
Inductive command_line : Type :=
| Parsed (ns : Namespace)
| Help (help : string)
| Rejected (usage : string).

Coercion Parsed : Namespace >-> command_line.

(** [parse_args] after [parser.parse_args()]:
    [args.query = " ".join(args.query) if args.query else None]. *)
Definition parse_args (ns : Namespace) : Args :=
  {| args_query := match ns_query ns with
                   | [] => None
                   | words => Some (String.concat " " words)
                   end;
     args_path := ns_path ns;
     args_model := ns_model ns;
     args_base_url := ns_base_url ns;
     args_api_token := ns_api_token ns |}.

(** [except FileNotFoundError] *)
Definition is_FileNotFoundError (e : exn) : bool :=
  match e with
  | FileNotFoundError _ => true
  | _ => false
  end.

(** [except ValueError]: [JSONDecodeError] and [UnicodeDecodeError] are
    subclasses of [ValueError]. *)
Definition is_ValueError (e : exn) : bool :=
  match e with
  | ValueError _ | JSONDecodeError _ | UnicodeDecodeError _ => true
  | _ => false
  end.

(** [except Exception] *)
Definition is_Exception (e : exn) : bool := true.

(** [try: body except C1: h1 except C2: h2 ...]: the first clause whose
    class matches handles the exception. *)
Definition try_excepts {A} (body : M A)
    (clauses : list ((exn → bool) * (exn → M A))) : M A :=
  λ w, match body w with
       | (inl e, w') =>
           match List.find (λ clause, clause.1 e) clauses with
           | Some clause => clause.2 e w'
           | None => (inl e, w')
           end
       | r => r
       end.

Section main.

Context (env : environment).

(** The body of the [try] in [main] once [parser.parse_args()] has
    returned. *)
Definition run (args : Args) : M unit :=
  eye <- __init__ env (args_path args) (args_query args) (args_model args)
           (args_base_url args) (args_api_token args) ;;
  process_query env eye ;;;
  ret tt.

(** [main] returns the exit status of the process: 0 when the body runs to
    its end, the argument of [exit] otherwise.  The exits of [argparse] pass
    through the [except] clauses, none of which catches [SystemExit]. *)
Definition main (cmd : command_line) : M Z :=
  match cmd with
  | Help help => print help EmptyString ;;; ret 0%Z
  | Rejected _ => ret 2%Z
  | Parsed ns =>
      try_excepts
        (run (parse_args ns) ;;; ret 0%Z)
        [ (is_FileNotFoundError,
           λ e, print ("Error: " +:+ str_exn e) newline ;;; ret 1%Z);
          (is_ValueError,
           λ e, print ("Error: " +:+ str_exn e) newline ;;; ret 1%Z);
          (is_Exception,
           λ e, print ("An unexpected error occurred: " +:+ str_exn e) newline ;;;
                ret 1%Z) ]
  end.

End main.

(** * Specification-side notions *)

(** The extension of a path: the text after its last dot, if it has one. *)
Fixpoint extension (path : string) : option string :=
  match path with
  | EmptyString => None
  | String c rest =>
      match extension rest with
      | Some e => Some e
      | None => if Ascii.eqb c "." then Some rest else None
      end
  end.

(** The text after the last dot, or the whole path when it has no dot:
    what [get_image_content_type] calls the extension. *)
Definition after_last_dot (path : string) : string :=
  default path (extension path).

Definition allowed_extensions : list string :=
  ["png"; "jpg"; "jpeg"; "bmp"; "webp"; "tiff"; "tif"].

(** A path is supported when it has an extension that is, ignoring case,
    in the allow-list. *)
Definition supported (path : string) : bool :=
  match extension path with
  | Some e => bool_decide (lower e ∈ allowed_extensions)
  | None => false
  end.

(** The MIME table of the specification. *)
Definition mime_of_extension (e : string) : string :=
  if bool_decide (e = "png") then "image/png"
  else if bool_decide (e = "jpg" ∨ e = "jpeg") then "image/jpeg"
  else if bool_decide (e = "bmp") then "image/bmp"
  else if bool_decide (e = "webp") then "image/webp"
  else if bool_decide (e = "tiff" ∨ e = "tif") then "image/tiff"
  else "image/png".

(** Precedence of the settings: an override, else the persisted value,
    else the default. *)
Definition resolve (override : option string) (persisted : option value)
    (default : value) : value :=
  match override, persisted with
  | Some s, _ => VStr s
  | None, Some v => v
  | None, None => default
  end.

(** An override written into a dictionary of settings. *)
Definition override (key : string) (arg : option string)
    (d : gmap string value) : gmap string value :=
  match arg with
  | Some s => <[key := VStr s]> d
  | None => d
  end.


(** The text delta a chunk carries, if any. *)
Definition text_delta (chunk : Chunk) : option string :=
  c ← head (choices chunk); content (delta c).

(** The non-empty text deltas of a stream, in arrival order. *)
Definition nonempty_deltas (stream : list Chunk) : list string :=
  filter (λ s, s ≠ EmptyString) (omap text_delta stream).

(** The exception that stops the loop of [process_query] on a stream, if
    any: the one raised by the stream in place of a chunk, or [IndexError]
    at a chunk without choices, whichever comes first. *)
Fixpoint stopped (stream : list Chunk) : option exn :=
  match stream with
  | [] => None
  | Interrupted e :: _ => Some e
  | MkChunk [] :: _ => Some (IndexError "list index out of range")
  | MkChunk (_ :: _) :: stream' => stopped stream'
  end.

(** The chunks of a stream up to the first item without choices: those the
    loop of [process_query] gets through. *)
Fixpoint consumed (stream : list Chunk) : list Chunk :=
  match stream with
  | [] => []
  | chunk :: stream' =>
      match choices chunk with
      | [] => []
      | _ :: _ => chunk :: consumed stream'
      end
  end.

(** The four keys of the settings. *)
Definition settings_keys : list string :=
  ["base_url"; "api_token"; "model_name"; "query_text"].

(** The overrides of a run written into a dictionary of settings. *)
Definition merged (d : gmap string value)
    (query_text model_name base_url api_token : option string)
    : gmap string value :=
  override "query_text" query_text (override "model_name" model_name
    (override "api_token" api_token (override "base_url" base_url d))).

(** The later of two overrides of a key. *)
Definition later (first second : option string) : option string :=
  match second with
  | Some s => Some s
  | None => first
  end.

(** The line [main] prints for an exception. *)
Definition report (e : exn) : string :=
  (if is_FileNotFoundError e || is_ValueError e then "Error: "
   else "An unexpected error occurred: ") +:+ str_exn e +:+ newline.

(** The override a run gives for a key of the dictionary, if any. *)
Definition override_for (key : string)
    (query_text model_name base_url api_token : option string)
    : option string :=
  if bool_decide (key = "base_url") then base_url
  else if bool_decide (key = "api_token") then api_token
  else if bool_decide (key = "model_name") then model_name
  else if bool_decide (key = "query_text") then query_text
  else None.

(** Whether a run gives any override. *)
Definition any_override
    (query_text model_name base_url api_token : option string) : bool :=
  bool_decide (base_url ≠ None) || bool_decide (api_token ≠ None)
  || bool_decide (model_name ≠ None) || bool_decide (query_text ≠ None).


(** The warning [save_config] prints for a write that raised [e]. *)
Definition save_warning (env : environment) (e : exn) : string :=
  ("Warning: Could not save config to " +:+ config_path env +:+ ": "
     +:+ str_exn e) +:+ newline.

(** The request [process_query] sends for an image with the bytes [data]. *)
Definition request_of (env : environment) (self : Eye) (data : list ascii)
    : api_call :=
  {| call_client := self_client self;
     call_model := self_model_name (self_settings self);
     call_messages :=
       build_messages
         (mime_of_extension (lower (after_last_dot (self_image_path self))))
         (b64encode env data) (self_query_text (self_settings self));
     call_stream := true |}.

(** The world after a write of the configuration file that raised: the
    file is as it was when [open] raised, and holds what the interrupted
    write left in it otherwise. *)
Definition interrupted_write (env : environment) (w : world) : world :=
  World (match config_write_leftover env with
         | Some s => Text s
         | None => config_file w
         end) (stdout w) (api_calls w).

(** The world after a call of the API was recorded. *)
Definition called (w : world) (call : api_call) : world :=
  World (config_file w) (stdout w) (api_calls w ++ [call]).

(** The world after [out] was printed. *)
Definition printed (w : world) (out : string) : world :=
  World (config_file w) (stdout w +:+ out) (api_calls w).

(** The concatenation of a list of strings. *)
Definition concatenation (l : list string) : string :=
  foldr String.append EmptyString l.

(** * An example world

    A concrete outside world on which the definitions can be run: a JSON
    codec for flat documents of strings (what a settings file holds), two
    files, and a remote API that answers in four chunks. *)

Module Example.

Definition dquote : ascii := ascii_of_nat 34.
Definition backslash : ascii := ascii_of_nat 92.
Definition lf : ascii := ascii_of_nat 10.

Definition is_space (c : ascii) : bool :=
  bool_decide (c ∈ [" "%char; lf; ascii_of_nat 9; ascii_of_nat 13]).

Fixpoint skip_space (s : string) : string :=
  match s with
  | String c s' => if is_space c then skip_space s' else s
  | EmptyString => EmptyString
  end.

(** Writing a string literal. *)
Definition escape_char (c : ascii) : string :=
  if Ascii.eqb c dquote then String backslash (String dquote EmptyString)
  else if Ascii.eqb c backslash then String backslash (String backslash EmptyString)
  else if Ascii.eqb c lf then String backslash "n"
  else String c EmptyString.

Fixpoint escape (s : string) : string :=
  match s with
  | EmptyString => EmptyString
  | String c s' => escape_char c +:+ escape s'
  end.

Definition literal (s : string) : string :=
  String dquote (escape s +:+ String dquote EmptyString).

Definition dump_member (kv : string * value) : string :=
  "  " +:+ literal kv.1 +:+ ": " +:+
  match kv.2 with
  | VStr s => literal s
  | _ => "null"
  end.

Definition separator : string := String "," (String lf EmptyString).

Definition dump (config : value) : string :=
  match config with
  | VDict d =>
      match map_to_list d with
      | [] => "{}"
      | kvs => "{" +:+ String lf (String.concat separator (dump_member <$> kvs))
                 +:+ String lf "}"
      end
  | _ => "null"
  end.

(** Reading a string literal after its opening quote: the string and the
    rest of the input. *)
Fixpoint read_literal (s : string) : option (string * string) :=
  match s with
  | EmptyString => None
  | String c s' =>
      if Ascii.eqb c dquote then Some (EmptyString, s')
      else if Ascii.eqb c backslash then
        match s' with
        | String e s'' =>
            let c' := if Ascii.eqb e "n" then lf else e in
            match read_literal s'' with
            | Some (r, rest) => Some (String c' r, rest)
            | None => None
            end
        | EmptyString => None
        end
      else
        match read_literal s' with
        | Some (r, rest) => Some (String c r, rest)
        | None => None
        end
  end.

(** Reading the members of an object up to its closing brace. *)
Fixpoint read_members (fuel : nat) (s : string) (acc : gmap string value)
    : option (gmap string value * string) :=
  match fuel with
  | O => None
  | S fuel =>
      match skip_space s with
      | String q s1 =>
          if negb (Ascii.eqb q dquote) then None else
          '(k, s2) ← read_literal s1;
          match skip_space s2 with
          | String ":" s3 =>
              match skip_space s3 with
              | String q' s4 =>
                  if negb (Ascii.eqb q' dquote) then None else
                  '(v, s5) ← read_literal s4;
                  let acc := <[k := VStr v]> acc in
                  match skip_space s5 with
                  | String "," s6 => read_members fuel s6 acc
                  | String "}" s6 => Some (acc, s6)
                  | _ => None
                  end
              | EmptyString => None
              end
          | _ => None
          end
      | EmptyString => None
      end
  end.

Definition load (s : string) : exn + value :=
  let parsed :=
    match skip_space s with
    | String "{" s1 =>
        match skip_space s1 with
        | String "}" s2 => Some (∅, s2)
        | _ => read_members (String.length s) s1 ∅
        end
    | _ => None
    end in
  match parsed with
  | Some (d, rest) =>
      match skip_space rest with
      | EmptyString => inr (VDict d)
      | _ => inl (JSONDecodeError "Extra data")
      end
  | None => inl (JSONDecodeError "Expecting value")
  end.

Definition chunk (s : option string) : Chunk := MkChunk [MkChoice (Delta s)].

Definition answer : list Chunk :=
  [chunk (Some "A "); chunk None; chunk (Some EmptyString); chunk (Some "cat.")].

Definition heye_bytes : list ascii := list_ascii_of_string "heye".

Definition env : environment := {|
  json_dump := dump;
  json_load := load;
  config_path := "/home/user/.heye";
  config_write_failure := None;
  config_write_leftover := None;
  getenv := λ name, if String.eqb name "DASHSCOPE_API_KEY" then Some "sk-env" else None;
  path_exists := λ p, bool_decide (p ∈ ["photo.JPG"; "document.pdf"]);
  read_bytes := λ p, if String.eqb p "photo.JPG" then inr heye_bytes
                     else inl (IOError "cannot read");
  b64encode := λ data, if bool_decide (data = heye_bytes) then "aGV5ZQ==" else EmptyString;
  client_failure := λ _ base_url,
    match base_url with
    | VNone | VStr _ => None
    | _ => Some (TypeError "Invalid type for url.")
    end;
  completions := λ _, inr answer
|}.

(** Settings persisted by an earlier run, and worlds without and with
    them. *)
Definition persisted : gmap string value :=
  <["base_url" := VStr "https://x"]> (<["api_token" := VStr "T0"]> ∅).

Definition fresh : world := World Missing EmptyString [].
Definition configured : world :=
  World (Text (dump (VDict persisted))) EmptyString [].

(** The object built by [Eye(path)] in the world [configured]. *)
Definition eye (path : string) : Eye :=
  {| self_settings :=
       {| self_base_url := VStr "https://x";
          self_api_token := VStr "T0";
          self_model_name := VStr default_model_name;
          self_query_text := VStr default_query_text |};
     self_image_path := path;
     self_client := Client (VStr "T0") (VStr "https://x") |}.

End Example.

(** Runs of the command line in the example world. *)
Module Runs.

(** [heye -p photo.JPG] *)
Definition photo : Namespace :=
  MkNamespace [] "photo.JPG" None None None.

(** [heye -p missing.png] *)
Definition missing : Namespace :=
  MkNamespace [] "missing.png" None None None.

(** [heye -p missing.png --api-token T9 what is this] *)
Definition missing_with_overrides : Namespace :=
  MkNamespace ["what"; "is"; "this"] "missing.png" None None (Some "T9").

(** A world whose configuration file holds a JSON array. *)
Definition array_config : world := World (Text "[]") EmptyString [].




(** A stream that breaks off: the third chunk has no choices. *)
Definition broken : list Chunk :=
  [Example.chunk (Some "A "); Example.chunk (Some "cat");
   MkChunk []; Example.chunk (Some " sleeps.")].

(** A stream whose connection is lost after two chunks. *)
Definition cut_off : list Chunk :=
  [Example.chunk (Some "A "); Example.chunk (Some "cat");
   Interrupted (OtherException "Connection error.")].

(** The example world with a read-only home directory, and with a JSON
    library that reads arrays. *)
Definition read_only : environment :=
  {| json_dump := json_dump Example.env;
     json_load := json_load Example.env;
     config_path := config_path Example.env;
     config_write_failure := Some (IOError "Permission denied");
     config_write_leftover := None;
     getenv := getenv Example.env;
     path_exists := path_exists Example.env;
     read_bytes := read_bytes Example.env;
     b64encode := b64encode Example.env;
     client_failure := client_failure Example.env;
     completions := completions Example.env |}.

Definition with_arrays : environment :=
  {| json_dump := json_dump Example.env;
     json_load := λ s, if String.eqb s "[]" then inr (VList [])
                       else json_load Example.env s;
     config_path := config_path Example.env;
     config_write_failure := None;
     config_write_leftover := None;
     getenv := getenv Example.env;
     path_exists := path_exists Example.env;
     read_bytes := read_bytes Example.env;
     b64encode := b64encode Example.env;
     client_failure := client_failure Example.env;
     completions := completions Example.env |}.


(** The example world with a full disk: the file is opened, and so
    truncated, and the write then raises. *)
Definition disk_full : environment :=
  {| json_dump := json_dump Example.env;
     json_load := json_load Example.env;
     config_path := config_path Example.env;
     config_write_failure := Some (IOError "[Errno 28] No space left on device");
     config_write_leftover := Some EmptyString;
     getenv := getenv Example.env;
     path_exists := path_exists Example.env;
     read_bytes := read_bytes Example.env;
     b64encode := b64encode Example.env;
     client_failure := client_failure Example.env;
     completions := completions Example.env |}.

(** The example world without any key in the environment variables. *)
Definition no_keys : environment :=
  {| json_dump := json_dump Example.env;
     json_load := json_load Example.env;
     config_path := config_path Example.env;
     config_write_failure := None;
     config_write_leftover := None;
     getenv := λ _, None;
     path_exists := path_exists Example.env;
     read_bytes := read_bytes Example.env;
     b64encode := b64encode Example.env;
     client_failure := client_failure Example.env;
     completions := completions Example.env |}.

(** The example world with a connection that is lost while the answer is
    streamed. *)
Definition unstable : environment :=
  {| json_dump := json_dump Example.env;
     json_load := json_load Example.env;
     config_path := config_path Example.env;
     config_write_failure := None;
     config_write_leftover := None;
     getenv := getenv Example.env;
     path_exists := path_exists Example.env;
     read_bytes := read_bytes Example.env;
     b64encode := b64encode Example.env;
     client_failure := client_failure Example.env;
     completions := λ _, inr cut_off |}.

(** The example world with images that cannot be opened. *)
Definition locked : environment :=
  {| json_dump := json_dump Example.env;
     json_load := json_load Example.env;
     config_path := config_path Example.env;
     config_write_failure := None;
     config_write_leftover := None;
     getenv := getenv Example.env;
     path_exists := path_exists Example.env;
     read_bytes := λ _, inl (IOError "Permission denied");
     b64encode := b64encode Example.env;
     client_failure := client_failure Example.env;
     completions := completions Example.env |}.

End Runs.

(** * Strings *)

Section strings.

Lemma endswith_refl s : endswith s s = true.
Proof. destruct s; cbn [endswith]; by rewrite String.eqb_refl. Qed.

Lemma endswith_cons c s suffix :
  endswith s suffix = true → endswith (String c s) suffix = true.
Proof.
  intros H. cbn [endswith]. by destruct (String.eqb _ _).
Qed.

Lemma endswith_inv c s suffix :
  endswith (String c s) suffix = true →
  String c s = suffix ∨ endswith s suffix = true.
Proof.
  cbn [endswith]. destruct (String.eqb_spec (String c s) suffix); auto.
Qed.

(** [endswith] is the suffix relation. *)
Lemma endswith_spec s suffix :
  endswith s suffix = true ↔ ∃ p, s = p +:+ suffix.
Proof.
  split.
  - induction s as [|c s IH].
    + destruct suffix; [by exists ""|done].
    + intros [<-|H]%endswith_inv; [by exists ""|].
      destruct (IH H) as [p ->]. by exists (String c p).
  - intros [p ->]. induction p as [|c p IH]; simpl.
    + apply endswith_refl.
    + by apply endswith_cons.
Qed.

Lemma lower_ascii_dot c : Ascii.eqb (lower_ascii c) "." = Ascii.eqb c ".".
Proof.
  destruct c as [[] [] [] [] [] [] [] []]; reflexivity.
Qed.

Lemma extension_lower path : extension (lower path) = lower <$> extension path.
Proof.
  induction path as [|c s IH]; [done|].
  simpl. rewrite IH, lower_ascii_dot.
  destruct (extension s); [done|]. by destruct (Ascii.eqb c ".").
Qed.

Lemma lower_after_last_dot path :
  after_last_dot (lower path) = lower (after_last_dot path).
Proof.
  unfold after_last_dot. rewrite extension_lower. by destruct (extension path).
Qed.

(** Ending with a dot followed by a dot-free [e] is having extension [e]. *)
Lemma endswith_extension s e :
  extension e = None →
  endswith s (String "." e) = true ↔ extension s = Some e.
Proof.
  intros He. induction s as [|c s IH].
  - done.
  - split.
    + intros [[= -> ->]|H]%endswith_inv; cbn [extension].
      * by rewrite He.
      * apply IH in H. by rewrite H.
    + cbn [extension]. destruct (extension s) as [e'|] eqn:Hs.
      * intros [= ->]. apply endswith_cons. by apply IH.
      * destruct (Ascii.eqb_spec c ".") as [->|]; [|done].
        intros [= ->]. apply endswith_refl.
Qed.

(** The pieces of [split "."]: the last one is the extension. *)
Lemma split_extension s :
  match extension s with
  | None => split "." s = [s]
  | Some e => ∃ w ws, split "." s = w :: ws ++ [e]
  end.
Proof.
  induction s as [|c s IH]; [done|].
  simpl. destruct (extension s) as [e|].
  - destruct IH as (w & ws & ->).
    destruct (Ascii.eqb c ".").
    + by exists "", (w :: ws).
    + by exists (String c w), ws.
  - rewrite IH. destruct (Ascii.eqb c ".").
    + by exists "", [].
    + done.
Qed.

Lemma last_split s : last (split "." s) = Some (after_last_dot s).
Proof.
  unfold after_last_dot. pose proof (split_extension s) as H.
  destruct (extension s) as [e|].
  - destruct H as (w & ws & ->). by rewrite app_comm_cons, last_snoc.
  - by rewrite H.
Qed.

Lemma content_types_lookup e :
  dict_get content_types e "image/png" = mime_of_extension e.
Proof.
  unfold dict_get, mime_of_extension.
  repeat (case_bool_decide; [destruct_or?; subst e; by vm_compute|]).
  unfold content_types. cbn [list_to_map foldr uncurry fst snd].
  rewrite !lookup_insert_ne by naive_solver. by rewrite lookup_empty.
Qed.

End strings.

(** * Image validation and content type *)

Section images.

Context (env : environment).

Lemma allowed_dot_free e : e ∈ allowed_extensions → extension e = None.
Proof.
  unfold allowed_extensions. intros H.
  repeat (apply elem_of_cons in H as [->|H]; [done|]).
  by apply elem_of_nil in H.
Qed.

(** The suffix test of [validate_image] is the allow-list test on the
    extension. *)
Lemma endswith_any_supported path :
  endswith_any (lower path) supported_extensions = supported path.
Proof.
  apply eq_true_iff_eq. unfold endswith_any, supported.
  rewrite existsb_exists.
  change supported_extensions with (String "." <$> allowed_extensions).
  split.
  - intros (suffix & Hin & Hend).
    apply list_elem_of_In, list_elem_of_fmap in Hin as (e & -> & He).
    apply endswith_extension in Hend; [|by apply allowed_dot_free].
    rewrite extension_lower in Hend.
    destruct (extension path) as [e'|]; [|done].
    injection Hend as <-. by apply bool_decide_eq_true.
  - destruct (extension path) as [e'|] eqn:He'; [|done].
    intros He%bool_decide_eq_true. exists (String "." (lower e')). split.
    + apply list_elem_of_In, list_elem_of_fmap. eauto.
    + apply endswith_extension; [by apply allowed_dot_free|].
      by rewrite extension_lower, He'.
Qed.

(** [validate_image], case by case. *)
Lemma validate_image_eq path w :
  validate_image env path w =
    (if path_exists env path then
       if supported path then inr tt
       else inl (ValueError (path +:+
         " is not a valid image file. Supported formats: PNG, JPG, JPEG, BMP, WEBP, TIFF, TIF"))
     else inl (FileNotFoundError (path +:+ " does not exist.")), w).
Proof.
  unfold validate_image. rewrite endswith_any_supported.
  destruct (path_exists env path); [|done].
  by destruct (supported path).
Qed.

(** [get_image_content_type] is the MIME table on the lowercased text after
    the last dot. *)
Lemma get_image_content_type_eq path w :
  get_image_content_type path w =
    (inr (mime_of_extension (lower (after_last_dot path))), w).
Proof.
  unfold get_image_content_type, bind, lift, index_last.
  rewrite last_split, lower_after_last_dot.
  unfold ret. by rewrite content_types_lookup.
Qed.

(** C4. [validate_image] raises [FileNotFoundError] (the specification's
    NotFoundError) for a path that does not exist; for a path that exists it
    returns normally exactly when the extension of the path, lowercased, is
    one of png, jpg, jpeg, bmp, webp, tiff, tif, and raises [ValueError] (the
    specification's UnsupportedFormatError) otherwise.  It never changes the
    world.  An uppercase extension is accepted, a path without extension
    and a path with another extension are rejected. *)
Theorem validate_image_spec :
  (∀ path w,
     validate_image env path w =
       (if path_exists env path then
          if supported path then inr tt
          else inl (ValueError (path +:+
            " is not a valid image file. Supported formats: PNG, JPG, JPEG, BMP, WEBP, TIFF, TIF"))
        else inl (FileNotFoundError (path +:+ " does not exist.")), w))
  ∧ supported "photo.PNG" = true
  ∧ supported "scan.Tiff" = true
  ∧ supported "photo" = false
  ∧ supported "png" = false
  ∧ supported "animation.gif" = false.
Proof.
  split; [|by vm_compute].
  intros path w. unfold validate_image.
  rewrite endswith_any_supported.
  destruct (path_exists env path); [|done].
  by destruct (supported path).
Qed.

(** C10. The existence check comes first: a path that does not exist
    raises [FileNotFoundError] whatever its extension, and [ValueError] is
    raised only for a path that exists. *)
Theorem validate_image_existence_first path w :
  (path_exists env path = false →
   validate_image env path w =
     (inl (FileNotFoundError (path +:+ " does not exist.")), w))
  ∧ (∀ msg w', validate_image env path w = (inl (ValueError msg), w') →
     path_exists env path = true).
Proof.
  unfold validate_image. split.
  - by intros ->.
  - intros msg w'. by destruct (path_exists env path).
Qed.

(** C6. [get_image_content_type] never raises and leaves the world alone;
    its result is the MIME table applied to the lowercased extension of the
    path (the text after the last dot): png to image/png, jpg and jpeg to
    image/jpeg, bmp to image/bmp, webp to image/webp, tiff and tif to
    image/tiff, and image/png for anything else. *)
Theorem get_image_content_type_spec :
  (∀ path w,
     get_image_content_type path w =
       (inr (mime_of_extension (lower (after_last_dot path))), w))
  ∧ mime_of_extension "png" = "image/png"
  ∧ mime_of_extension "jpg" = "image/jpeg"
  ∧ mime_of_extension "jpeg" = "image/jpeg"
  ∧ mime_of_extension "bmp" = "image/bmp"
  ∧ mime_of_extension "webp" = "image/webp"
  ∧ mime_of_extension "tiff" = "image/tiff"
  ∧ mime_of_extension "tif" = "image/tiff"
  ∧ (∀ e, e ∉ allowed_extensions → mime_of_extension e = "image/png")
  ∧ (∀ w, get_image_content_type "photo.JPG" w = (inr "image/jpeg", w)).
Proof.
  assert (∀ path w, get_image_content_type path w =
            (inr (mime_of_extension (lower (after_last_dot path))), w)) as Hct.
  { intros path w. unfold get_image_content_type, bind, lift, index_last.
    rewrite last_split, lower_after_last_dot.
    unfold ret. by rewrite content_types_lookup. }
  split_and!; try done.
  - intros e He. unfold mime_of_extension, allowed_extensions in *.
    repeat (case_bool_decide;
            [exfalso; apply He; destruct_or?; subst e;
             apply (bool_decide_unpack _); by vm_compute|]).
    done.
Qed.

End images.

(** * Configuration store *)

Section configuration.

Context (env : environment).

(** What [load_config] returns, by the state of the file. *)
Lemma load_config_eq w :
  load_config env w =
    (match config_file w with
     | Missing => inr (VDict ∅)
     | Inaccessible e => inl e
     | Unreadable e => if is_load_failure e then inr (VDict ∅) else inl e
     | Text s =>
         match json_load env s with
         | inr v => inr v
         | inl e => if is_load_failure e then inr (VDict ∅) else inl e
         end
     end, w).
Proof.
  unfold load_config, bind, config_file_exists, try_except, read_config, ret.
  destruct (config_file w) as [|e|e|s] eqn:Hfile; cbn; rewrite ?Hfile.
  - done.
  - done.
  - by destruct (is_load_failure e).
  - destruct (json_load env s) as [e|v]; [|done].
    by destruct (is_load_failure e).
Qed.


Lemma merge_dict d q m b t w :
  merge (VDict d) q m b t w =
    (inr (VDict (override "query_text" q (override "model_name" m
                  (override "api_token" t (override "base_url" b d))))), w).
Proof. by destruct q, m, b, t. Qed.

Lemma lookup_override key key' arg d :
  override key arg d !! key' =
    if bool_decide (key = key') then
      match arg with Some s => Some (VStr s) | None => d !! key' end
    else d !! key'.
Proof.
  unfold override. destruct arg as [s|]; [|by case_bool_decide].
  rewrite lookup_insert. case_decide; by case_bool_decide.
Qed.

Lemma dict_get_resolve (d : gmap string value) key arg default :
  dict_get (override key arg d) key default = resolve arg (d !! key) default.
Proof.
  unfold dict_get. rewrite lookup_override, bool_decide_eq_true_2 by done.
  by destruct arg.
Qed.

Lemma or_get_resolve d arg key default w :
  d !! key = match arg with Some s => Some (VStr s) | None => d !! key end →
  or_get arg (VDict d) key default w =
    (inr (match arg with Some s => VStr s | None => dict_get d key default end), w).
Proof.
  intros Hd. unfold or_get, get, dict_get, ret.
  destruct arg as [[|c s]|]; [|done..]. by rewrite Hd.
Qed.

(** [save_config] returns normally unless writing raises something that
    is not an [IOError]. *)
Lemma save_config_returns config w :
  (∀ e, config_write_failure env = Some e → is_IOError e = true) →
  ∃ w', save_config env config w = (inr tt, w').
Proof.
  intros Hio. unfold save_config, try_except, write_config.
  destruct (config_write_failure env) as [e|]; [|eauto].
  rewrite (Hio e) by done. unfold print. eauto.
Qed.

(** C1. When the persisted settings are the dictionary [d], each of the
    four attributes set by [_setup_configuration] is the override if one is
    given, else the value persisted under its key, else its default: the
    fixed endpoint, the value of the environment variable DASHSCOPE_API_KEY,
    the fixed model and the fixed prompt. *)
Theorem setup_configuration_precedence q m b t d w :
  (load_config env w).1 = inr (VDict d) →
  (∀ e, config_write_failure env = Some e → is_IOError e = true) →
  (_setup_configuration env q m b t w).1 =
    inr {| self_base_url :=
             resolve b (d !! "base_url") (VStr default_base_url);
           self_api_token :=
             resolve t (d !! "api_token") (of_arg (getenv env "DASHSCOPE_API_KEY"));
           self_model_name :=
             resolve m (d !! "model_name") (VStr default_model_name);
           self_query_text :=
             resolve q (d !! "query_text") (VStr default_query_text) |}.
Proof.
  intros Hload Hio. unfold _setup_configuration, bind at 1.
  destruct (load_config env w) as [[e|config] w1]; simplify_eq/=.
  unfold bind at 1. rewrite merge_dict. unfold bind at 1.
  set (d' := override _ _ _).
  assert (∃ w2, (if bool_decide (b ≠ None) || bool_decide (t ≠ None)
                    || bool_decide (m ≠ None) || bool_decide (q ≠ None)
                 then save_config env (VDict d') else ret ()) w1 = (inr (), w2))
    as [w2 ->].
  { destruct (_ || _); [by apply save_config_returns|]. by exists w1. }
  unfold bind, get, ret.
  rewrite !or_get_resolve
    by (subst d'; rewrite !lookup_override; by destruct q, m).
  cbn [fst]. subst d'. f_equal. f_equal; unfold dict_get, resolve;
    rewrite !lookup_override; repeat case_bool_decide; try done;
    by destruct q, m, b, t.
Qed.

(** C8. With all four overrides [None] the merge leaves the loaded
    settings as they are and [_setup_configuration] leaves the world, and
    so the persisted settings, untouched; merging the same overrides a
    second time changes nothing either. *)
Theorem merge_no_overrides :
  (∀ config w, merge config None None None None w = (inr config, w))
  ∧ (∀ w, (_setup_configuration env None None None None w).2 = w)
  ∧ (∀ d q m b t w, ∃ d',
       merge (VDict d) q m b t w = (inr (VDict d'), w)
       ∧ merge (VDict d') q m b t w = (inr (VDict d'), w)).
Proof.
  split_and!.
  - done.
  - intros w. unfold _setup_configuration, bind at 1.
    rewrite load_config_eq.
    set (r := match config_file w with Missing => _ | _ => _ end).
    destruct r as [e|config]; [done|].
    unfold bind, merge, update, ret, or_get, get. cbn.
    by destruct config.
  - intros d q m b t w. eexists. split; [apply merge_dict|].
    rewrite merge_dict. do 3 f_equal. apply map_eq. intros k.
    rewrite !lookup_override.
    repeat case_bool_decide; by destruct q, m, b, t.
Qed.


(** C7. When the write succeeds and the JSON text of the settings reads
    back as the settings, [load_config] after [save_config] returns the
    settings that were saved. *)
Theorem save_then_load config w :
  config_write_failure env = None →
  json_load env (json_dump env config) = inr config →
  ∃ w', save_config env config w = (inr tt, w')
        ∧ load_config env w' = (inr config, w')
        ∧ stdout w' = stdout w.
Proof.
  intros Hwrite Hjson.
  exists (World (Text (json_dump env config)) (stdout w) (api_calls w)).
  split_and!; [|rewrite load_config_eq; cbn; by rewrite Hjson|done].
  unfold save_config, try_except, write_config. by rewrite Hwrite.
Qed.

End configuration.

(** * Query processor *)

Section query.

Context (env : environment).

Lemma append_assoc (s1 s2 s3 : string) : (s1 +:+ s2) +:+ s3 = s1 +:+ s2 +:+ s3.
Proof.
  induction s1 as [|c s1 IH]; [done|].
  change (String c ((s1 +:+ s2) +:+ s3) = String c (s1 +:+ s2 +:+ s3)).
  by f_equal.
Qed.

Lemma append_nil_r (s : string) : s +:+ EmptyString = s.
Proof.
  induction s as [|c s IH]; [done|].
  change (String c (s +:+ EmptyString) = String c s). by f_equal.
Qed.

Lemma nonempty_deltas_cons chunk stream :
  nonempty_deltas (chunk :: stream) =
    match text_delta chunk with
    | Some (String c s) => String c s :: nonempty_deltas stream
    | _ => nonempty_deltas stream
    end.
Proof.
  unfold nonempty_deltas. cbn [omap list_omap].
  destruct (text_delta chunk) as [[|c s]|]; [|by rewrite filter_cons_True|done].
  by rewrite filter_cons_False by naive_solver.
Qed.

(** The loop on a stream whose chunks all have a first choice: it returns,
    having appended the non-empty deltas, in order, both to the output and
    to the accumulator. *)
Lemma consume_spec stream : ∀ acc w,
  Forall (λ chunk, choices chunk ≠ []) stream →
  consume stream acc w =
    (inr (acc +:+ concatenation (nonempty_deltas stream)),
     World (config_file w) (stdout w +:+ concatenation (nonempty_deltas stream))
           (api_calls w)).
Proof.
  induction stream as [|chunk stream IH]; intros acc w Hwf.
  - cbn. rewrite !append_nil_r. by destruct w.
  - apply Forall_cons in Hwf as [Hchunk Hwf].
    rewrite nonempty_deltas_cons. unfold text_delta.
    destruct chunk as [[|[[[[|c s]|]]] ?]|e]; [done| | | |done];
      cbn [consume choices]; unfold bind, ret, print; cbn;
      rewrite IH by done; cbn; [done| |done].
    by rewrite !append_assoc.
Qed.

(** A chunk without choices stops the loop with an [IndexError]. *)
Lemma consume_no_choices stream acc w :
  consume (MkChunk [] :: stream) acc w =
    (inl (IndexError "list index out of range"), w).
Proof. done. Qed.

(** The loop calls nothing and does not touch the configuration file. *)
Lemma consume_frame stream : ∀ acc w,
  api_calls (consume stream acc w).2 = api_calls w
  ∧ config_file (consume stream acc w).2 = config_file w.
Proof.
  induction stream as [|chunk stream IH]; intros acc w; [done|].
  destruct chunk as [[|[[[[|c s]|]]] ?]|e]; [done| | | |done];
    cbn [consume]; unfold bind, ret, raise, print; cbn;
    by edestruct IH as [-> ->].
Qed.

(** [process_query] up to the call of the API, for an image that passes
    validation and can be read. *)
Lemma process_query_eq self w data :
  path_exists env (self_image_path self) = true →
  supported (self_image_path self) = true →
  read_bytes env (self_image_path self) = inr data →
  process_query env self w =
    (stream <- send_messages env self
       (build_messages
          (mime_of_extension (lower (after_last_dot (self_image_path self))))
          (b64encode env data) (self_query_text (self_settings self))) ;;
     consume stream EmptyString) w.
Proof.
  intros Hex Hsup Hread. unfold process_query, bind at 1.
  rewrite validate_image_eq, Hex, Hsup.
  unfold bind at 1, encode_image, lift, bind at 1. rewrite Hread.
  unfold ret at 1, bind at 1.
  by rewrite get_image_content_type_eq.
Qed.

(** C2. On a stream of chunks that each have a first choice, the loop of
    [process_query] ends with the accumulator and the printed output both
    extended by the concatenation of the non-empty text deltas in arrival
    order; so a [process_query] that reaches the API and receives such a
    stream returns with [assistant_content] equal to that concatenation,
    which is exactly what it printed. *)
Theorem process_query_accumulates :
  (∀ stream acc w,
     Forall (λ chunk, choices chunk ≠ []) stream →
     consume stream acc w =
       (inr (acc +:+ concatenation (nonempty_deltas stream)),
        World (config_file w)
              (stdout w +:+ concatenation (nonempty_deltas stream))
              (api_calls w)))
  ∧ (∀ self w data stream,
       path_exists env (self_image_path self) = true →
       supported (self_image_path self) = true →
       read_bytes env (self_image_path self) = inr data →
       (∀ call, completions env call = inr stream) →
       Forall (λ chunk, choices chunk ≠ []) stream →
       (process_query env self w).1 = inr (concatenation (nonempty_deltas stream))
       ∧ stdout (process_query env self w).2 =
           stdout w +:+ concatenation (nonempty_deltas stream)).
Proof.
  split; [intros; by apply consume_spec|].
  intros self w data stream Hex Hsup Hread Hapi Hwf.
  rewrite (process_query_eq _ _ data) by done.
  unfold bind, send_messages, create. rewrite Hapi.
  by rewrite consume_spec.
Qed.

(** C5. The request is one message of role user whose content is, in this
    order, the image as the data URI [data:<mime>;base64,<payload>] and the
    text prompt; [process_query] sends exactly this request, with the MIME
    type of the path, the base64 text of the file and the query text. *)
Theorem process_query_request :
  (∀ content_type base64_image query,
     build_messages content_type base64_image query =
       [ {| role := "user";
            parts := [ image_url ("data:" +:+ content_type +:+ ";base64,"
                                    +:+ base64_image);
                       text query ] |} ])
  ∧ (∀ self w data,
       path_exists env (self_image_path self) = true →
       supported (self_image_path self) = true →
       read_bytes env (self_image_path self) = inr data →
       api_calls (process_query env self w).2 =
         (api_calls w ++
          [ {| call_client := self_client self;
               call_model := self_model_name (self_settings self);
               call_messages :=
                 build_messages
                   (mime_of_extension (lower (after_last_dot (self_image_path self))))
                   (b64encode env data)
                   (self_query_text (self_settings self));
               call_stream := true |} ])%list).
Proof.
  split; [done|].
  intros self w data Hex Hsup Hread.
  rewrite (process_query_eq _ _ data) by done.
  unfold bind, send_messages, create.
  destruct (completions env _) as [e|stream]; [done|].
  by destruct (consume_frame stream EmptyString
    (World (config_file w) (stdout w) (api_calls w ++
      [ApiCall (self_client self) (self_model_name (self_settings self))
         (build_messages
            (mime_of_extension (lower (after_last_dot (self_image_path self))))
            (b64encode env data) (self_query_text (self_settings self)))
         true]))) as [-> _].
Qed.

(** C9. With [document.pdf] as the image path, [process_query] fails in
    validation, before the file is read and before any call of the API:
    when the file exists it raises [ValueError] (the specification's
    UnsupportedFormatError) and leaves the world as it was; whether the file
    exists or not, no call is recorded. *)
Theorem process_query_pdf self w :
  self_image_path self = "document.pdf" →
  (path_exists env "document.pdf" = true →
   process_query env self w =
     (inl (ValueError "document.pdf is not a valid image file. Supported formats: PNG, JPG, JPEG, BMP, WEBP, TIFF, TIF"), w))
  ∧ api_calls (process_query env self w).2 = api_calls w
  ∧ ∃ e, (process_query env self w).1 = inl e.
Proof.
  intros Hpath.
  assert (process_query env self w =
            (inl (if path_exists env "document.pdf"
                  then ValueError "document.pdf is not a valid image file. Supported formats: PNG, JPG, JPEG, BMP, WEBP, TIFF, TIF"
                  else FileNotFoundError "document.pdf does not exist."), w))
    as ->.
  { unfold process_query, bind at 1.
    rewrite validate_image_eq, Hpath.
    change (supported "document.pdf") with false.
    by destruct (path_exists env "document.pdf"). }
  split_and!; [by intros ->|done|by eexists].
Qed.

End query.

(** * The example codec

    The JSON codec of the example world reads back what it writes, for
    every dictionary of strings. *)

Section example_codec.

Import Example.

Lemma append_cons c (s t : string) : String c s +:+ t = String c (s +:+ t).
Proof. done. Qed.

Lemma read_literal_escape s : ∀ rest,
  read_literal (escape s +:+ String dquote rest) = Some (s, rest).
Proof.
  induction s as [|c s IH]; intros rest; [done|].
  cbn [escape]. unfold escape_char.
  destruct (Ascii.eqb_spec c dquote) as [->|Hq].
  { rewrite !append_cons. cbn [read_literal].
    change (Ascii.eqb backslash dquote) with false.
    change (Ascii.eqb backslash backslash) with true.
    change (Ascii.eqb dquote "n") with false. cbn.
    change (String.append EmptyString ?x) with x. by rewrite IH. }
  destruct (Ascii.eqb_spec c backslash) as [->|Hb].
  { rewrite !append_cons. cbn [read_literal].
    change (Ascii.eqb backslash dquote) with false.
    change (Ascii.eqb backslash backslash) with true.
    change (Ascii.eqb backslash "n") with false. cbn.
    change (String.append EmptyString ?x) with x. by rewrite IH. }
  destruct (Ascii.eqb_spec c lf) as [->|Hl].
  { rewrite !append_cons. cbn [read_literal].
    change (Ascii.eqb backslash dquote) with false.
    change (Ascii.eqb backslash backslash) with true.
    change (Ascii.eqb "n" "n") with true. cbn.
    change (String.append EmptyString ?x) with x. by rewrite IH. }
  rewrite !append_cons. cbn [read_literal].
  destruct (Ascii.eqb_spec c dquote); [done|].
  destruct (Ascii.eqb_spec c backslash); [done|].
  change (String.append EmptyString ?x) with x. by rewrite IH.
Qed.

Lemma read_literal_literal s rest :
  ∃ t, literal s +:+ rest = String dquote t ∧ read_literal t = Some (s, rest).
Proof.
  exists (escape s +:+ String dquote rest). split.
  - unfold literal. by rewrite append_cons, append_assoc.
  - apply read_literal_escape.
Qed.

Lemma append_nil_l (s : string) : EmptyString +:+ s = s.
Proof. done. Qed.

Local Ltac flatten :=
  repeat (rewrite !append_cons || rewrite !append_assoc || rewrite !append_nil_l).

Lemma dump_member_app k v tail :
  dump_member (k, VStr v) +:+ tail =
    String " " (String " " (String dquote
      (escape k +:+ String dquote (String ":" (String " " (String dquote
        (escape v +:+ String dquote tail))))))).
Proof.
  unfold dump_member, literal. cbn [fst snd]. by flatten.
Qed.

Lemma read_member k v tail fuel acc :
  read_members (S fuel) (String lf (dump_member (k, VStr v) +:+ tail)) acc =
    match skip_space tail with
    | String "," s => read_members fuel s (<[k := VStr v]> acc)
    | String "}" s => Some (<[k := VStr v]> acc, s)
    | _ => None
    end.
Proof.
  rewrite dump_member_app. cbn [read_members].
  change (skip_space (String lf (String " " (String " " (String dquote ?s)))))
    with (String dquote s).
  change (negb (Ascii.eqb dquote dquote)) with false. cbv iota.
  rewrite read_literal_escape. cbn [mbind option_bind].
  change (skip_space (String ":" ?s)) with (String ":" s). cbv iota beta.
  change (skip_space (String " " (String dquote ?s))) with (String dquote s).
  cbv iota beta.
  change (negb (Ascii.eqb dquote dquote)) with false. cbv iota.
  rewrite read_literal_escape. by cbn [mbind option_bind].
Qed.

Lemma read_members_concat kvs : ∀ acc fuel,
  kvs ≠ [] →
  Forall (λ kv : string * value, ∃ s, kv.2 = VStr s) kvs →
  (List.length kvs ≤ fuel)%nat →
  read_members fuel
    (String lf (String.concat separator (dump_member <$> kvs) +:+ String lf "}"))
    acc
  = Some (foldl (λ a kv, <[kv.1 := kv.2]> a) acc kvs, EmptyString).
Proof.
  induction kvs as [|[k v] kvs IH]; intros acc fuel Hne Hstr Hfuel; [done|].
  apply Forall_cons in Hstr as [[s Hs] Hstr]. cbn in Hs. subst v.
  destruct fuel as [|fuel]; [cbn in Hfuel; lia|].
  destruct kvs as [|kv' kvs].
  - cbn [fmap list_fmap String.concat]. by rewrite read_member.
  - change (String.concat separator (dump_member <$> (k, VStr s) :: kv' :: kvs))
      with (dump_member (k, VStr s) +:+ separator
              +:+ String.concat separator (dump_member <$> kv' :: kvs)).
    rewrite !append_assoc. unfold separator at 1.
    rewrite !append_cons, append_nil_l, read_member.
    change (skip_space (String "," ?s)) with (String "," s). cbv iota beta.
    rewrite IH; [done|done|done|]. cbn in Hfuel |- *. lia.
Qed.

Lemma length_append (s t : string) :
  String.length (s +:+ t) = String.length s + String.length t.
Proof.
  induction s as [|c s IH]; [done|]. rewrite append_cons. cbn. by rewrite IH.
Qed.

Lemma length_dump_member kv : (1 ≤ String.length (dump_member kv))%nat.
Proof. unfold dump_member. rewrite !append_cons. cbn. lia. Qed.

Lemma length_concat_members kvs :
  (List.length kvs
   ≤ String.length (String.concat separator (dump_member <$> kvs)))%nat.
Proof.
  induction kvs as [|kv kvs IH]; [done|].
  pose proof (length_dump_member kv).
  destruct kvs as [|kv' kvs]; [done|].
  change (String.concat separator (dump_member <$> kv :: kv' :: kvs))
    with (dump_member kv +:+ separator
            +:+ String.concat separator (dump_member <$> kv' :: kvs)).
  rewrite !length_append. cbn [List.length] in *. lia.
Qed.

Lemma foldl_insert_map_to_list (d : gmap string value) :
  foldl (λ a kv, <[kv.1 := kv.2]> a) ∅ (map_to_list d) = d.
Proof.
  rewrite <-(list_to_map_to_list d) at 2.
  rewrite <-(list_to_map_proper (reverse (map_to_list d)) (map_to_list d)).
  - rewrite <-(reverse_involutive (map_to_list d)) at 1.
    generalize (reverse (map_to_list d)). intros l.
    induction l as [|[k v] l IH]; [done|].
    rewrite reverse_cons, foldl_app. cbn. by rewrite IH.
  - rewrite fmap_reverse, reverse_Permutation. apply NoDup_fst_map_to_list.
  - apply reverse_Permutation.
Qed.

Lemma skip_space_members kvs tail :
  kvs ≠ [] →
  Forall (λ kv : string * value, ∃ s, kv.2 = VStr s) kvs →
  ∃ t, skip_space (String lf
         (String.concat separator (dump_member <$> kvs) +:+ tail))
       = String dquote t.
Proof.
  destruct kvs as [|[k v] kvs]; [done|]. intros _ [[s Hs] _]%Forall_cons.
  cbn in Hs. subst v.
  destruct kvs as [|kv' kvs].
  - cbn [fmap list_fmap String.concat]. rewrite dump_member_app. by eexists.
  - change (String.concat separator (dump_member <$> (k, VStr s) :: kv' :: kvs))
      with (dump_member (k, VStr s) +:+ separator
              +:+ String.concat separator (dump_member <$> kv' :: kvs)).
    rewrite append_assoc, dump_member_app. by eexists.
Qed.

Lemma load_object kvs :
  kvs ≠ [] →
  Forall (λ kv : string * value, ∃ s, kv.2 = VStr s) kvs →
  load ("{" +:+ String lf (String.concat separator (dump_member <$> kvs))
            +:+ String lf "}")
  = inr (VDict (foldl (λ a kv, <[kv.1 := kv.2]> a) ∅ kvs)).
Proof.
  intros Hne Hstr. rewrite !append_cons, append_nil_l. unfold load.
  change (skip_space (String "{" ?s)) with (String "{" s). cbv iota beta.
  destruct (skip_space_members kvs (String lf "}") Hne Hstr) as [t ->].
  change (match String dquote t with
          | String "}" s2 => Some (∅, s2)
          | _ => ?r
          end) with r.
  rewrite read_members_concat; [done|done|done|].
  pose proof (length_concat_members kvs). cbn [String.length].
  rewrite length_append. lia.
Qed.

(** The example codec reads back every dictionary of strings it writes. *)
Lemma load_dump (d : gmap string value) :
  map_Forall (λ _ v, ∃ s, v = VStr s) d →
  load (dump (VDict d)) = inr (VDict d).
Proof.
  intros Hstr. unfold dump.
  destruct (map_to_list d) as [|kv kvs] eqn:Hl.
  { apply map_to_list_empty_iff in Hl as ->. by vm_compute. }
  rewrite <-Hl, load_object, foldl_insert_map_to_list; [done|by rewrite Hl|].
  apply Forall_forall. intros [k' v'] Hin.
  apply elem_of_map_to_list in Hin. by apply (Hstr k').
Qed.

End example_codec.

(** * The example world, run *)

Section examples.

Import Example.

Example init_configured :
  __init__ env "photo.JPG" None None None None configured
  = (inr (eye "photo.JPG"), configured).
Proof. by vm_compute. Qed.

Example run_photo :
  process_query env (eye "photo.JPG") configured
  = (inr "A cat.",
     World (config_file configured) "A cat."
       [ ApiCall (Client (VStr "T0") (VStr "https://x")) (VStr "qwen3-vl-plus")
           [ Message "user"
               [ image_url "data:image/jpeg;base64,aGV5ZQ==";
                 text (VStr "What scene is depicted in the image?") ] ]
           true ]).
Proof. by vm_compute. Qed.

Example first_run_persists :
  (_setup_configuration env (Some "describe") (Some "qwen3-vl-flash")
     (Some "https://x") (Some "T123") fresh).2
  = World (Text (dump (VDict
       (<["base_url" := VStr "https://x"]> (<["api_token" := VStr "T123"]>
        (<["model_name" := VStr "qwen3-vl-flash"]>
         (<["query_text" := VStr "describe"]> ∅))))))) EmptyString [].
Proof. by vm_compute. Qed.

Lemma setup_configuration_precedence_witness :
  (_setup_configuration env None None None (Some "T1") configured).1 =
    inr {| self_base_url := VStr "https://x";
           self_api_token := VStr "T1";
           self_model_name := VStr "qwen3-vl-plus";
           self_query_text := VStr "What scene is depicted in the image?" |}.
Proof.
  apply (setup_configuration_precedence env None None None (Some "T1")
           persisted configured).
  - by vm_compute.
  - intros e He. discriminate He.
Defined.



Lemma save_then_load_witness :
  ∃ w', save_config env (VDict persisted) fresh = (inr tt, w')
        ∧ load_config env w' = (inr (VDict persisted), w')
        ∧ stdout w' = stdout fresh.
Proof.
  apply (save_then_load env (VDict persisted) fresh).
  - reflexivity.
  - by vm_compute.
Defined.

Lemma validate_image_existence_first_witness :
  validate_image env "missing.gif" fresh =
    (inl (FileNotFoundError "missing.gif does not exist."), fresh).
Proof.
  apply (proj1 (validate_image_existence_first env "missing.gif" fresh)).
  by vm_compute.
Defined.

Lemma get_image_content_type_spec_witness :
  mime_of_extension "gif" = "image/png".
Proof.
  destruct get_image_content_type_spec as (_ & _ & _ & _ & _ & _ & _ & _ & H & _).
  apply H. apply (bool_decide_unpack _). by vm_compute.
Defined.

Lemma process_query_accumulates_witness :
  (process_query env (eye "photo.JPG") fresh).1 = inr "A cat."
  ∧ stdout (process_query env (eye "photo.JPG") fresh).2 = "A cat.".
Proof.
  apply (proj2 (process_query_accumulates env) (eye "photo.JPG") fresh
           heye_bytes answer).
  - by vm_compute.
  - by vm_compute.
  - by vm_compute.
  - intros call. reflexivity.
  - repeat constructor; discriminate.
Defined.

Lemma process_query_request_witness :
  api_calls (process_query env (eye "photo.JPG") fresh).2 =
    [ ApiCall (Client (VStr "T0") (VStr "https://x")) (VStr "qwen3-vl-plus")
        [ Message "user"
            [ image_url "data:image/jpeg;base64,aGV5ZQ==";
              text (VStr "What scene is depicted in the image?") ] ]
        true ].
Proof.
  apply (proj2 (process_query_request env) (eye "photo.JPG") fresh heye_bytes).
  - by vm_compute.
  - by vm_compute.
  - by vm_compute.
Defined.

Lemma process_query_pdf_witness :
  process_query env (eye "document.pdf") fresh =
    (inl (ValueError "document.pdf is not a valid image file. Supported formats: PNG, JPG, JPEG, BMP, WEBP, TIFF, TIF"), fresh).
Proof.
  apply (proj1 (process_query_pdf env (eye "document.pdf") fresh eq_refl)).
  by vm_compute.
Defined.

End examples.

(** * Further properties of the configuration store *)

Section configuration_more.

Context (env : environment).

Lemma lookup_merged d q m b t key :
  merged d q m b t !! key =
    match override_for key q m b t with
    | Some s => Some (VStr s)
    | None => d !! key
    end.
Proof.
  unfold merged, override_for. rewrite !lookup_override.
  repeat case_bool_decide; simplify_eq; by destruct q, m, b, t.
Qed.

Lemma merge_merged d q m b t w :
  merge (VDict d) q m b t w = (inr (VDict (merged d q m b t)), w).
Proof. apply merge_dict. Qed.

(** [save_config], case by case. *)
Lemma save_config_eq config w :
  save_config env config w =
    match config_write_failure env with
    | None =>
        (inr tt, World (Text (json_dump env config)) (stdout w) (api_calls w))
    | Some e =>
        if is_IOError e
        then (inr tt, printed (interrupted_write env w) (save_warning env e))
        else (inl e, interrupted_write env w)
    end.
Proof.
  unfold save_config, try_except, write_config.
  destruct (config_write_failure env) as [e|]; [|done].
  by destruct (is_IOError e).
Qed.

(** The attributes resolved from a dictionary of settings. *)
Lemma resolve_merged d q m b t w :
  (url <- get (VDict (merged d q m b t)) "base_url" (VStr default_base_url) ;;
   token <- get (VDict (merged d q m b t)) "api_token"
              (of_arg (getenv env "DASHSCOPE_API_KEY")) ;;
   model <- or_get m (VDict (merged d q m b t)) "model_name"
              (VStr default_model_name) ;;
   query <- or_get q (VDict (merged d q m b t)) "query_text"
              (VStr default_query_text) ;;
   ret (Settings url token model query)) w =
  (inr {| self_base_url :=
            resolve b (d !! "base_url") (VStr default_base_url);
          self_api_token :=
            resolve t (d !! "api_token") (of_arg (getenv env "DASHSCOPE_API_KEY"));
          self_model_name :=
            resolve m (d !! "model_name") (VStr default_model_name);
          self_query_text :=
            resolve q (d !! "query_text") (VStr default_query_text) |}, w).
Proof.
  unfold bind, get, ret.
  rewrite !or_get_resolve
    by (rewrite !lookup_merged; unfold override_for; cbn; by destruct q, m).
  unfold dict_get, resolve. rewrite !lookup_merged. unfold override_for. cbn.
  by destruct q, m, b, t.
Qed.

(** [_setup_configuration] when the file holds the dictionary [d]. *)
Lemma setup_dict d q m b t w :
  (load_config env w).1 = inr (VDict d) →
  _setup_configuration env q m b t w =
    match (if any_override q m b t
           then save_config env (VDict (merged d q m b t)) w
           else (inr tt, w)) with
    | (inr _, w') =>
        (inr {| self_base_url :=
                  resolve b (d !! "base_url") (VStr default_base_url);
                self_api_token :=
                  resolve t (d !! "api_token")
                    (of_arg (getenv env "DASHSCOPE_API_KEY"));
                self_model_name :=
                  resolve m (d !! "model_name") (VStr default_model_name);
                self_query_text :=
                  resolve q (d !! "query_text") (VStr default_query_text) |},
         w')
    | (inl e, w') => (inl e, w')
    end.
Proof.
  intros Hload. unfold _setup_configuration, bind at 1.
  rewrite load_config_eq in Hload |- *. cbn [fst] in Hload. rewrite Hload.
  unfold bind at 1. rewrite merge_merged. unfold bind at 1, any_override.
  destruct (_ || _).
  - destruct (save_config env _ w) as [[e|[]] w']; [done|].
    apply resolve_merged.
  - unfold ret at 1. apply resolve_merged.
Qed.

(** X1. Merging into a dictionary of settings returns a dictionary in
    which a key has the override given for it and, when none is given, what
    the dictionary had: keys that are not settings and settings without
    override are kept as they were, absent ones stay absent. *)
Theorem merge_lookup d q m b t w :
  ∃ d', merge (VDict d) q m b t w = (inr (VDict d'), w)
        ∧ ∀ key, d' !! key =
            match override_for key q m b t with
            | Some s => Some (VStr s)
            | None => d !! key
            end.
Proof.
  exists (merged d q m b t). split; [apply merge_merged|].
  intros key. apply lookup_merged.
Qed.

(** X2. Merging two sets of overrides one after the other is merging once
    the later override of each key. *)
Theorem merge_merge d q1 m1 b1 t1 q2 m2 b2 t2 w :
  (config <- merge (VDict d) q1 m1 b1 t1 ;; merge config q2 m2 b2 t2) w =
  merge (VDict d) (later q1 q2) (later m1 m2) (later b1 b2) (later t1 t2) w.
Proof.
  unfold bind. rewrite !merge_merged. do 3 f_equal.
  apply map_eq. intros key. rewrite !lookup_merged. unfold override_for.
  repeat case_bool_decide; by destruct q1, m1, b1, t1, q2, m2, b2, t2.
Qed.

(** X3. When the configuration file holds JSON that is not an object,
    [_setup_configuration] raises, [TypeError] if an override is given and
    [AttributeError] if none is, and leaves the world, so also the file, as
    it was. *)
Theorem setup_configuration_not_a_dict config q m b t w :
  (load_config env w).1 = inr config →
  (∀ d, config ≠ VDict d) →
  ∃ e, _setup_configuration env q m b t w = (inl e, w)
       ∧ match e with
         | TypeError _ => any_override q m b t = true
         | AttributeError _ => any_override q m b t = false
         | _ => False
         end.
Proof.
  intros Hload Hnd. unfold _setup_configuration, bind at 1.
  rewrite load_config_eq in Hload |- *. cbn [fst] in Hload. rewrite Hload.
  unfold bind, merge, update, setitem, get, or_get, ret, raise, any_override.
  destruct config as [| | | |xs|d]; [..|by destruct (Hnd d)];
    destruct b, t, m, q; cbn; (eexists; split; [reflexivity|]);
    by vm_compute.
Qed.

(** X4. When the file holds a dictionary, an override is given and the
    write succeeds, [_setup_configuration] rewrites the file with the whole
    merged dictionary and changes nothing else; the defaults are not
    written. *)
Theorem setup_configuration_saves d q m b t w :
  (load_config env w).1 = inr (VDict d) →
  any_override q m b t = true →
  config_write_failure env = None →
  (_setup_configuration env q m b t w).2 =
    World (Text (json_dump env (VDict (merged d q m b t))))
          (stdout w) (api_calls w).
Proof.
  intros Hload Hany Hwrite.
  by rewrite (setup_dict d), Hany, save_config_eq, Hwrite.
Qed.

(** X5. When the write of the configuration raises an [IOError], the
    settings are resolved all the same and one warning line is printed; any
    other exception of the write is raised by [_setup_configuration] and
    nothing is printed.  Either way the settings that were in the file
    survive only when [open] itself raised: once the file is opened it is
    truncated, and after the failure it holds what the interrupted write
    left, not the settings it had. *)
Theorem setup_configuration_write_failure d q m b t w e :
  (load_config env w).1 = inr (VDict d) →
  any_override q m b t = true →
  config_write_failure env = Some e →
  _setup_configuration env q m b t w =
    (if is_IOError e then
       (inr {| self_base_url :=
                 resolve b (d !! "base_url") (VStr default_base_url);
               self_api_token :=
                 resolve t (d !! "api_token")
                   (of_arg (getenv env "DASHSCOPE_API_KEY"));
               self_model_name :=
                 resolve m (d !! "model_name") (VStr default_model_name);
               self_query_text :=
                 resolve q (d !! "query_text") (VStr default_query_text) |},
        World (match config_write_leftover env with
               | Some s => Text s
               | None => config_file w
               end) (stdout w +:+ save_warning env e) (api_calls w))
     else
       (inl e,
        World (match config_write_leftover env with
               | Some s => Text s
               | None => config_file w
               end) (stdout w) (api_calls w))).
Proof.
  intros Hload Hany Hwrite.
  rewrite (setup_dict d), Hany, save_config_eq, Hwrite by done.
  by destruct (is_IOError e).
Qed.

(** X6. Settings are remembered: after a run whose write succeeded and
    whose JSON text reads back, a run without overrides resolves the same
    four attributes and changes nothing. *)
Theorem setup_configuration_remembers d q m b t w :
  (load_config env w).1 = inr (VDict d) →
  config_write_failure env = None →
  json_load env (json_dump env (VDict (merged d q m b t)))
    = inr (VDict (merged d q m b t)) →
  _setup_configuration env None None None None
    (_setup_configuration env q m b t w).2
  = _setup_configuration env q m b t w.
Proof.
  intros Hload Hwrite Hjson.
  rewrite (setup_dict d q m b t w) by done.
  destruct (any_override q m b t) eqn:Hany.
  - rewrite save_config_eq, Hwrite. cbn [snd].
    rewrite (setup_dict (merged d q m b t))
      by (rewrite load_config_eq; cbn; by rewrite Hjson).
    cbn. do 2 f_equal. unfold resolve. rewrite !lookup_merged.
    unfold override_for. cbn. f_equal; by destruct q, m, b, t.
  - cbn [snd]. rewrite (setup_dict d) by done. cbn.
    unfold any_override in Hany. by destruct q, m, b, t.
Qed.

(** X7. [load_config] never changes the world.  An exception it raises
    either comes from the existence check, which stands outside the [try],
    or is not a parse, IO or encoding exception; whatever the JSON library
    reads from the file, object or not, is returned as it is. *)
Theorem load_config_frame w :
  (load_config env w).2 = w
  ∧ (∀ e, (load_config env w).1 = inl e →
       config_file w = Inaccessible e ∨ is_load_failure e = false)
  ∧ (∀ s v, config_file w = Text s → json_load env s = inr v →
       (load_config env w).1 = inr v).
Proof.
  rewrite load_config_eq. split_and!; [done| |by intros s v -> ->].
  cbn. intros e.
  destruct (config_file w) as [|e'|e'|s]; [done| | |].
  - intros [= ->]. by left.
  - destruct (is_load_failure e') eqn:?; [done|]. intros [= <-]. by right.
  - destruct (json_load env s) as [e'|v]; [|done].
    destruct (is_load_failure e') eqn:?; [done|]. intros [= <-]. by right.
Qed.

End configuration_more.

(** * Further properties of the query processor *)

Section query_more.

Context (env : environment).

Lemma consumed_cons chunk stream :
  consumed (chunk :: stream) =
    match choices chunk with
    | [] => []
    | _ :: _ => chunk :: consumed stream
    end.
Proof. done. Qed.

(** The loop on any stream. *)
Lemma consume_total stream : ∀ acc w,
  consume stream acc w =
    (match stopped stream with
     | None => inr (acc +:+ concatenation (nonempty_deltas (consumed stream)))
     | Some e => inl e
     end,
     World (config_file w)
           (stdout w +:+ concatenation (nonempty_deltas (consumed stream)))
           (api_calls w)).
Proof.
  induction stream as [|chunk stream IH]; intros acc w.
  - cbn. rewrite !append_nil_r. by destruct w.
  - rewrite consumed_cons.
    destruct chunk as [[|[[[[|c s]|]]] ?]|e]; cbn [consume stopped choices].
    + cbn. rewrite append_nil_r. by destruct w.
    + rewrite nonempty_deltas_cons.
      unfold bind, ret. cbn. by rewrite IH.
    + rewrite nonempty_deltas_cons.
      unfold bind, ret, print. cbn. rewrite IH. cbn.
      rewrite !append_assoc. by destruct (stopped stream).
    + rewrite nonempty_deltas_cons.
      unfold bind, ret. cbn. by rewrite IH.
    + cbn. rewrite append_nil_r. by destruct w.
Qed.


(** [process_query], case by case. *)
Lemma process_query_cases self w :
  process_query env self w =
    if negb (path_exists env (self_image_path self)) then
      (inl (FileNotFoundError (self_image_path self +:+ " does not exist.")), w)
    else if negb (supported (self_image_path self)) then
      (inl (ValueError (self_image_path self +:+
         " is not a valid image file. Supported formats: PNG, JPG, JPEG, BMP, WEBP, TIFF, TIF")), w)
    else
      match read_bytes env (self_image_path self) with
      | inl e => (inl e, w)
      | inr data =>
          match completions env (request_of env self data) with
          | inl e => (inl e, called w (request_of env self data))
          | inr stream =>
              consume stream EmptyString (called w (request_of env self data))
          end
      end.
Proof.
  destruct (path_exists env (self_image_path self)) eqn:Hex; cbn [negb].
  2: { unfold process_query, bind at 1. by rewrite validate_image_eq, Hex. }
  destruct (supported (self_image_path self)) eqn:Hsup; cbn [negb].
  2: { unfold process_query, bind at 1.
       by rewrite validate_image_eq, Hex, Hsup. }
  destruct (read_bytes env (self_image_path self)) as [e|data] eqn:Hread.
  - unfold process_query, bind at 1. rewrite validate_image_eq, Hex, Hsup.
    unfold bind at 1, encode_image, lift, bind at 1. by rewrite Hread.
  - rewrite (process_query_eq _ _ _ data) by done.
    unfold bind, send_messages, create. fold (request_of env self data).
    fold (called w (request_of env self data)).
    by destruct (completions env _).
Qed.


(** X9. [process_query] never touches the configuration file, records at
    most one call of the API and only appends to the output. *)
Theorem process_query_frame self w :
  config_file (process_query env self w).2 = config_file w
  ∧ (api_calls (process_query env self w).2 = api_calls w
     ∨ ∃ call, api_calls (process_query env self w).2
               = (api_calls w ++ [call])%list)
  ∧ ∃ out, stdout (process_query env self w).2 = stdout w +:+ out.
Proof.
  assert (stdout w = stdout w +:+ EmptyString) as Hnil
    by (by rewrite append_nil_r).
  rewrite process_query_cases.
  destruct (negb (path_exists env _));
    [split_and!; [done|by left|by exists EmptyString]|].
  destruct (negb (supported _));
    [split_and!; [done|by left|by exists EmptyString]|].
  destruct (read_bytes env _) as [e|data];
    [split_and!; [done|by left|by exists EmptyString]|].
  destruct (completions env _) as [e|stream].
  - split_and!; [done|right; by eexists|by exists EmptyString].
  - rewrite consume_total.
    split_and!; [done|right; by eexists|by eexists].
Qed.

(** X10. For an image that passes validation: when the file cannot be
    read, [process_query] raises the exception of the read and the world is
    unchanged, so no call is made; when the call of the API raises, the
    call is recorded and nothing has been printed. *)
Theorem process_query_failures self w :
  path_exists env (self_image_path self) = true →
  supported (self_image_path self) = true →
  (∀ e, read_bytes env (self_image_path self) = inl e →
     process_query env self w = (inl e, w))
  ∧ (∀ data e, read_bytes env (self_image_path self) = inr data →
       completions env (request_of env self data) = inl e →
       process_query env self w = (inl e, called w (request_of env self data))).
Proof.
  intros Hex Hsup. rewrite process_query_cases, Hex, Hsup. cbn [negb].
  split.
  - by intros e ->.
  - by intros data e -> ->.
Qed.

(** X11. The two tables agree: an extension has an entry in the table of
    content types exactly when, with its dot, it is one of the suffixes
    [validate_image] allows;
    so for a path that passes validation the content type comes from an
    entry of the table, never from the fallback. *)
Theorem content_types_cover_supported :
  (∀ e, is_Some (content_types !! e) ↔ String "." e ∈ supported_extensions)
  ∧ (∀ path w, supported path = true →
       ∃ mime, content_types !! lower (after_last_dot path) = Some mime
               ∧ get_image_content_type path w = (inr mime, w)).
Proof.
  assert (∀ e, is_Some (content_types !! e)
               ↔ String "." e ∈ supported_extensions) as Htab.
  { intros e. split.
    - intros [mime Hmime]. unfold content_types in Hmime.
      cbn [list_to_map foldr uncurry fst snd] in Hmime.
      repeat (rewrite lookup_insert in Hmime; case_decide;
              [subst e; apply (bool_decide_unpack _); by vm_compute|]).
      by rewrite lookup_empty in Hmime.
    - unfold supported_extensions. intros He.
      repeat (apply elem_of_cons in He as [[= ->]|He];
              [apply (bool_decide_unpack _); by vm_compute|]).
      by apply elem_of_nil in He. }
  split; [done|].
  intros path w Hsup. rewrite get_image_content_type_eq.
  unfold supported, after_last_dot in *.
  destruct (extension path) as [e|]; [|done]. cbn.
  apply bool_decide_eq_true in Hsup.
  assert (String "." (lower e) ∈ supported_extensions) as Hin.
  { change supported_extensions with (String "." <$> allowed_extensions).
    apply list_elem_of_fmap. eauto. }
  apply Htab in Hin as [mime Hmime].
  exists mime. split; [done|].
  rewrite <-content_types_lookup. unfold dict_get. by rewrite Hmime.
Qed.

End query_more.

(** * The command line *)

Section main_more.

Context (env : environment).

(** A computation built from steps that keep an observation of the world
    keeps it. *)
Lemma bind_keeps {A B T} (f : world → T) (m : M A) (k : A → M B) w :
  (∀ w, f (m w).2 = f w) → (∀ x w, f (k x w).2 = f w) →
  f (bind m k w).2 = f w.
Proof.
  intros Hm Hk. unfold bind. specialize (Hm w).
  destruct (m w) as [[e|x] w']; cbn in *; [done|].
  by rewrite Hk.
Qed.

Lemma update_frame config key arg w : (update config key arg w).2 = w.
Proof. by destruct arg, config. Qed.

Lemma get_frame config key default w : (get config key default w).2 = w.
Proof. by destruct config. Qed.

Lemma or_get_frame arg config key default w :
  (or_get arg config key default w).2 = w.
Proof. unfold or_get. destruct (truthy arg); [done|apply get_frame]. Qed.

Lemma merge_frame config q m b t w : (merge config q m b t w).2 = w.
Proof. by destruct config, b, t, m, q. Qed.

(** The part of [_setup_configuration] after the save changes nothing. *)
Lemma resolution_frame config q m w :
  ((url <- get config "base_url" (VStr default_base_url) ;;
    token <- get config "api_token" (of_arg (getenv env "DASHSCOPE_API_KEY")) ;;
    model <- or_get m config "model_name" (VStr default_model_name) ;;
    query <- or_get q config "query_text" (VStr default_query_text) ;;
    ret (Settings url token model query)) w).2 = w.
Proof.
  apply (bind_keeps id); [intros; apply get_frame|intros ? ?].
  apply (bind_keeps id); [intros; apply get_frame|intros ? ?].
  apply (bind_keeps id); [intros; apply or_get_frame|intros ? ?].
  by apply (bind_keeps id); [intros; apply or_get_frame|intros ? ?].
Qed.

(** [_setup_configuration] records no call of the API. *)
Lemma setup_keeps_api_calls q m b t w :
  api_calls (_setup_configuration env q m b t w).2 = api_calls w.
Proof.
  unfold _setup_configuration.
  apply bind_keeps; [intros; by rewrite load_config_eq|intros config ?].
  apply bind_keeps; [intros; by rewrite merge_frame|intros config' ?].
  apply bind_keeps; [intros w'|intros ? ?; by rewrite resolution_frame].
  destruct (_ || _); [|done]. rewrite save_config_eq.
  destruct (config_write_failure env) as [e|]; [|done].
  by destruct (is_IOError e).
Qed.

(** Without overrides [_setup_configuration] changes nothing. *)
Lemma setup_none_frame w :
  (_setup_configuration env None None None None w).2 = w.
Proof.
  unfold _setup_configuration.
  apply (bind_keeps id); [intros; by rewrite load_config_eq|intros config ?].
  apply (bind_keeps id); [intros; by rewrite merge_frame|intros config' ?].
  apply (bind_keeps id); [done|intros ? ?; by rewrite resolution_frame].
Qed.

(** The constructor of the client changes nothing, and the client it
    builds holds its arguments. *)
Lemma OpenAI_new_eq api_key base_url w :
  OpenAI_new env api_key base_url w =
    ((OpenAI_new env api_key base_url w).1, w)
  ∧ ∀ client, (OpenAI_new env api_key base_url w).1 = inr client →
      client = Client api_key base_url.
Proof.
  unfold OpenAI_new.
  destruct api_key, (getenv env "OPENAI_API_KEY");
    try (split; [done|intros ? [=]]);
    destruct (client_failure env _ _); split; try done; by intros ? [= <-].
Qed.

Lemma init_eq path q m b t w :
  __init__ env path q m b t w =
    match _setup_configuration env q m b t w with
    | (inr s, w') =>
        match (OpenAI_new env (self_api_token s) (self_base_url s) w').1 with
        | inr client => (inr (MkEye s path client), w')
        | inl e => (inl e, w')
        end
    | (inl e, w') => (inl e, w')
    end.
Proof.
  unfold __init__, bind at 1.
  destruct (_setup_configuration env q m b t w) as [[e|s] w']; [done|].
  unfold bind. rewrite (proj1 (OpenAI_new_eq _ _ w')).
  by destruct (OpenAI_new env _ _ w').1.
Qed.

(** An object that is built carries the path it was given. *)
Lemma init_path path q m b t w eye w1 :
  __init__ env path q m b t w = (inr eye, w1) → self_image_path eye = path.
Proof.
  rewrite init_eq.
  destruct (_setup_configuration env q m b t w) as [[e|s] w']; [done|].
  destruct (OpenAI_new env _ _ w').1 as [e|client]; [done|].
  by intros [= <- <-].
Qed.

Lemma run_eq args w :
  run env args w =
    match __init__ env (args_path args) (args_query args) (args_model args)
            (args_base_url args) (args_api_token args) w with
    | (inr eye, w1) =>
        match process_query env eye w1 with
        | (inr _, w2) => (inr tt, w2)
        | (inl e, w2) => (inl e, w2)
        end
    | (inl e, w1) => (inl e, w1)
    end.
Proof.
  unfold run, bind. destruct (__init__ _ _ _ _ _ _ w) as [[e|eye] w1]; [done|].
  by destruct (process_query env eye w1) as [[e|out] w2].
Qed.

(** [main] in terms of the run it wraps. *)
Lemma main_eq (ns : Namespace) w :
  main env ns w =
    match run env (parse_args ns) w with
    | (inr _, w') => (inr 0%Z, w')
    | (inl e, w') => (inr 1%Z, printed w' (report e))
    end.
Proof.
  unfold main, try_excepts, bind at 1.
  destruct (run env (parse_args ns) w) as [[e|[]] w']; [|done].
  unfold printed, report.
  destruct e; cbn; unfold bind, print, ret; cbn; by rewrite !append_assoc.
Qed.


Lemma process_query_keeps_config self w :
  config_file (process_query env self w).2 = config_file w.
Proof.
  rewrite process_query_cases.
  destruct (negb (path_exists env _)); [done|].
  destruct (negb (supported _)); [done|].
  destruct (read_bytes env _) as [e|data]; [done|].
  destruct (completions env _) as [e|stream]; [done|].
  by rewrite consume_total.
Qed.


(** X13. When the object is built, a missing image makes [main] print
    [Error: <path> does not exist.] and an image of another format makes it
    print the message of [validate_image]; the status is 1 and nothing else
    happens after the object was built. *)
Theorem main_validation_failure ns w eye w1 :
  __init__ env (ns_path ns) (args_query (parse_args ns)) (ns_model ns)
    (ns_base_url ns) (ns_api_token ns) w = (inr eye, w1) →
  (path_exists env (ns_path ns) = false →
   main env ns w =
     (inr 1%Z,
      printed w1 ("Error: " +:+ (ns_path ns +:+ " does not exist.") +:+ newline)))
  ∧ (path_exists env (ns_path ns) = true →
     supported (ns_path ns) = false →
     main env ns w =
       (inr 1%Z,
        printed w1 ("Error: " +:+ (ns_path ns +:+
          " is not a valid image file. Supported formats: PNG, JPG, JPEG, BMP, WEBP, TIFF, TIF")
          +:+ newline))).
Proof.
  intros Hinit. rewrite main_eq, run_eq. cbn [parse_args args_path args_model
    args_base_url args_api_token]. rewrite Hinit, process_query_cases.
  rewrite (init_path _ _ _ _ _ _ _ _ Hinit).
  split.
  - by intros ->.
  - by intros -> ->.
Qed.

(** X14. The overrides of the command line are saved before the image is
    looked at: when the file holds a dictionary and the write succeeds, a
    run with an override whose image is missing or of another format still
    rewrites the file with the merged dictionary, calls nothing and ends
    with status 1. *)
Theorem main_saves_before_validation ns w d :
  (load_config env w).1 = inr (VDict d) →
  config_write_failure env = None →
  any_override (args_query (parse_args ns)) (ns_model ns) (ns_base_url ns)
    (ns_api_token ns) = true →
  path_exists env (ns_path ns) && supported (ns_path ns) = false →
  (main env ns w).1 = inr 1%Z
  ∧ config_file (main env ns w).2 =
      Text (json_dump env (VDict (merged d (args_query (parse_args ns))
              (ns_model ns) (ns_base_url ns) (ns_api_token ns))))
  ∧ api_calls (main env ns w).2 = api_calls w.
Proof.
  intros Hload Hwrite Hany Hbad. rewrite main_eq, run_eq. cbn [parse_args
    args_path args_model args_base_url args_api_token]. rewrite init_eq.
  rewrite (setup_dict env d), Hany, save_config_eq, Hwrite by done.
  destruct (OpenAI_new env _ _ _).1 as [e|client]; [done|].
  rewrite process_query_cases. cbn [self_image_path].
  destruct (path_exists env (ns_path ns)); [|done].
  by destruct (supported (ns_path ns)).
Qed.


(** X16. A run with only the path on the command line never writes the
    configuration file, whatever else happens. *)
Theorem main_path_only_keeps_config path w :
  config_file (main env (MkNamespace [] path None None None) w).2
  = config_file w.
Proof.
  rewrite main_eq, run_eq. cbn [parse_args args_path args_query args_model
    args_base_url args_api_token ns_query ns_path ns_model ns_base_url
    ns_api_token]. rewrite init_eq.
  pose proof (setup_none_frame w) as Hsetup.
  destruct (_setup_configuration env None None None None w) as [[e|s] w1];
    cbn in Hsetup; subst w1; [done|].
  destruct (OpenAI_new env _ _ w).1 as [e|client]; [done|].
  pose proof (process_query_keeps_config (MkEye s path client) w) as Hconfig.
  by destruct (process_query env _ w) as [[e|out] w2].
Qed.

End main_more.

(** * The constructor *)

Section constructor_more.

Context (env : environment).

(** X17. The constructor accepts any model name: [_validate_model] is not
    called.  When the file holds a dictionary, saving raises nothing but
    [IOError] and the client can be built from the resolved token and
    endpoint (a token is resolved or OPENAI_API_KEY is set, and the library
    raises nothing for them), an object is built for every name given on
    the command line, with that name as its model, although
    [_validate_model] accepts the object only when the name is one of the
    three supported models.  The model name plays no part in whether the
    client can be built. *)
Theorem init_accepts_any_model format path q name b t d w :
  (load_config env w).1 = inr (VDict d) →
  (∀ e, config_write_failure env = Some e → is_IOError e = true) →
  (resolve t (d !! "api_token") (of_arg (getenv env "DASHSCOPE_API_KEY")) = VNone →
   is_Some (getenv env "OPENAI_API_KEY")) →
  client_failure env
    (resolve t (d !! "api_token") (of_arg (getenv env "DASHSCOPE_API_KEY")))
    (resolve b (d !! "base_url") (VStr default_base_url)) = None →
  ∃ eye w', __init__ env path q (Some name) b t w = (inr eye, w')
    ∧ self_model_name (self_settings eye) = VStr name
    ∧ ((_validate_model format eye w').1 = inr tt ↔ name ∈ SUPPORTED_MODELS).
Proof.
  intros Hload Hio Hkey Hclient. rewrite init_eq, (setup_dict env d) by done.
  assert (any_override q (Some name) b t = true) as ->.
  { unfold any_override. rewrite (bool_decide_eq_true_2 (Some name ≠ None)) by done.
    by rewrite orb_true_r. }
  rewrite save_config_eq.
  assert (∀ eye w', self_model_name (self_settings eye) = VStr name →
            (_validate_model format eye w').1 = inr tt ↔ name ∈ SUPPORTED_MODELS)
    as Hvalid.
  { intros eye w' Hname. unfold _validate_model. rewrite Hname. cbn [value_in].
    case_bool_decide; cbn; naive_solver. }
  assert (∀ w', (OpenAI_new env
              (resolve t (d !! "api_token") (of_arg (getenv env "DASHSCOPE_API_KEY")))
              (resolve b (d !! "base_url") (VStr default_base_url)) w').1 =
            inr (Client
              (resolve t (d !! "api_token") (of_arg (getenv env "DASHSCOPE_API_KEY")))
              (resolve b (d !! "base_url") (VStr default_base_url)))) as Hnew.
  { intros w'. unfold OpenAI_new. rewrite Hclient.
    destruct (resolve t _ _) eqn:Htoken; try done.
    by destruct Hkey as [key ->]. }
  destruct (config_write_failure env) as [e|] eqn:Hwrite.
  - rewrite (Hio e) by done. cbn [self_api_token self_base_url].
    rewrite Hnew. eexists _, _. split; [done|]. split; [done|].
    by apply Hvalid.
  - cbn [self_api_token self_base_url]. rewrite Hnew.
    eexists _, _. split; [done|]. split; [done|]. by apply Hvalid.
Qed.

(** X18. Building the object records no call of the API and does not look
    at the image: the world after [__init__] is the world after
    [_setup_configuration], whatever the path, and an object that is built
    carries the path it was given and a client made of the resolved token
    and endpoint. *)
Theorem init_frame path q m b t w :
  api_calls (__init__ env path q m b t w).2 = api_calls w
  ∧ (__init__ env path q m b t w).2 = (_setup_configuration env q m b t w).2
  ∧ ∀ eye, (__init__ env path q m b t w).1 = inr eye →
      self_image_path eye = path
      ∧ self_client eye = Client (self_api_token (self_settings eye))
                                 (self_base_url (self_settings eye))
      ∧ (_setup_configuration env q m b t w).1 = inr (self_settings eye).
Proof.
  pose proof (setup_keeps_api_calls env q m b t w) as Hcalls.
  rewrite init_eq.
  destruct (_setup_configuration env q m b t w) as [[e|s] w'];
    [by split_and!|].
  pose proof (proj2 (OpenAI_new_eq env (self_api_token s) (self_base_url s) w'))
    as Hclient.
  destruct (OpenAI_new env _ _ w').1 as [e|client]; split_and!; try done.
  intros eye [= <-]. by rewrite (Hclient client).
Qed.

End constructor_more.

(** * The further properties, run *)

Section more_examples.

Import Example Runs.

Example run_broken_stream :
  consume broken EmptyString fresh
  = (inl (IndexError "list index out of range"),
     World Missing "A cat" []).
Proof. by vm_compute. Qed.

Lemma setup_configuration_not_a_dict_witness :
  ∃ e, _setup_configuration with_arrays None None None (Some "T9") array_config
       = (inl e, array_config)
       ∧ match e with
         | TypeError _ => any_override None None None (Some "T9") = true
         | AttributeError _ => any_override None None None (Some "T9") = false
         | _ => False
         end.
Proof.
  apply (setup_configuration_not_a_dict with_arrays (VList [])
           None None None (Some "T9") array_config).
  - by vm_compute.
  - intros d. discriminate.
Defined.

Lemma setup_configuration_saves_witness :
  (_setup_configuration env None None None (Some "T1") configured).2 =
    World (Text (dump (VDict (<["api_token" := VStr "T1"]> persisted))))
          EmptyString [].
Proof.
  apply (setup_configuration_saves env persisted None None None (Some "T1")
           configured).
  - by vm_compute.
  - by vm_compute.
  - reflexivity.
Defined.

Example write_refused_keeps_settings :
  _setup_configuration read_only (Some "describe") None None None configured =
    (inr {| self_base_url := VStr "https://x";
            self_api_token := VStr "T0";
            self_model_name := VStr default_model_name;
            self_query_text := VStr "describe" |},
     World (config_file configured)
       (String.append
          "Warning: Could not save config to /home/user/.heye: Permission denied"
          newline) []).
Proof. by vm_compute. Qed.

Lemma setup_configuration_write_failure_witness :
  _setup_configuration disk_full (Some "describe") None None None configured =
    (inr {| self_base_url := VStr "https://x";
            self_api_token := VStr "T0";
            self_model_name := VStr default_model_name;
            self_query_text := VStr "describe" |},
     World (Text EmptyString)
       (String.append
          "Warning: Could not save config to /home/user/.heye: [Errno 28] No space left on device"
          newline) []).
Proof.
  pose proof (setup_configuration_write_failure disk_full persisted
                (Some "describe") None None None configured
                (IOError "[Errno 28] No space left on device")) as H.
  rewrite H; [reflexivity|by vm_compute|by vm_compute|reflexivity].
Defined.

Example settings_lost_after_failed_write :
  (_setup_configuration env None None None None
     (_setup_configuration disk_full (Some "describe") None None None
        configured).2).1
  = inr {| self_base_url := VStr default_base_url;
           self_api_token := VStr "sk-env";
           self_model_name := VStr default_model_name;
           self_query_text := VStr default_query_text |}.
Proof. by vm_compute. Qed.

Lemma setup_configuration_remembers_witness :
  _setup_configuration env None None None None
    (_setup_configuration env (Some "describe") None None (Some "T1")
       configured).2
  = _setup_configuration env (Some "describe") None None (Some "T1") configured.
Proof.
  apply (setup_configuration_remembers env persisted (Some "describe") None
           None (Some "T1") configured).
  - by vm_compute.
  - reflexivity.
  - by vm_compute.
Defined.

Lemma load_config_frame_witness :
  (load_config with_arrays array_config).1 = inr (VList []).
Proof.
  apply (proj2 (proj2 (load_config_frame with_arrays array_config)) "[]").
  - reflexivity.
  - reflexivity.
Defined.


Example run_cut_off_stream :
  main unstable photo configured
  = (inr 1%Z,
     World (config_file configured)
       (String.append "A catAn unexpected error occurred: Connection error."
          newline)
       [request_of env (eye "photo.JPG") heye_bytes]).
Proof. by vm_compute. Qed.

Lemma process_query_failures_witness :
  process_query locked (eye "photo.JPG") fresh
  = (inl (IOError "Permission denied"), fresh).
Proof.
  apply (proj1 (process_query_failures locked (eye "photo.JPG") fresh
                  eq_refl eq_refl)).
  reflexivity.
Defined.

Lemma content_types_cover_supported_witness :
  ∃ mime, content_types !! lower (after_last_dot "photo.JPG") = Some mime
          ∧ get_image_content_type "photo.JPG" fresh = (inr mime, fresh).
Proof.
  apply (proj2 content_types_cover_supported "photo.JPG" fresh).
  by vm_compute.
Defined.

Lemma main_validation_failure_witness :
  main env missing configured =
    (inr 1%Z,
     World (config_file configured)
       (String.append "Error: missing.png does not exist." newline) []).
Proof.
  apply (proj1 (main_validation_failure env missing configured
                  (eye "missing.png") configured ltac:(by vm_compute))).
  by vm_compute.
Defined.

Lemma main_saves_before_validation_witness :
  (main env missing_with_overrides fresh).1 = inr 1%Z
  ∧ config_file (main env missing_with_overrides fresh).2 =
      Text (dump (VDict (<["query_text" := VStr "what is this"]>
                           (<["api_token" := VStr "T9"]> ∅))))
  ∧ api_calls (main env missing_with_overrides fresh).2 = [].
Proof.
  apply (main_saves_before_validation env missing_with_overrides fresh ∅).
  - by vm_compute.
  - reflexivity.
  - by vm_compute.
  - by vm_compute.
Defined.



Example main_rejected :
  main env (Rejected "the following arguments are required: -p/--path")
    configured
  = (inr 2%Z, configured).
Proof. reflexivity. Qed.

Example init_without_key :
  __init__ no_keys "photo.JPG" (Some "describe") None None None fresh
  = (inl (OtherException "The api_key client option must be set either by passing api_key to the client or by setting the OPENAI_API_KEY environment variable"),
     World (Text (dump (VDict (<["query_text" := VStr "describe"]> ∅))))
       EmptyString []).
Proof. by vm_compute. Qed.

Example main_without_key :
  main no_keys photo fresh
  = (inr 1%Z,
     World Missing
       (String.append "An unexpected error occurred: The api_key client option must be set either by passing api_key to the client or by setting the OPENAI_API_KEY environment variable"
          newline) []).
Proof. by vm_compute. Qed.

Lemma init_accepts_any_model_witness :
  ∃ eye w', __init__ env "photo.JPG" None (Some "gpt-4o") None None configured
            = (inr eye, w')
    ∧ self_model_name (self_settings eye) = VStr "gpt-4o"
    ∧ ((_validate_model (λ _, "gpt-4o") eye w').1 = inr tt
       ↔ "gpt-4o" ∈ SUPPORTED_MODELS).
Proof.
  apply (init_accepts_any_model env (λ _, "gpt-4o") "photo.JPG" None "gpt-4o"
           None None persisted configured).
  - by vm_compute.
  - intros e He. discriminate He.
  - intros Hnone. by vm_compute in Hnone.
  - by vm_compute.
Defined.

End more_examples.
